(** * Milestone 1 RDF validator: a shallow embedding and its properties

    Source: [attached_assets/validate_milestone1_1765641590938.py].

    The validator loads an RDF graph with rdflib and runs four checks over
    it.  The graph is a finite set of triples of RDF terms; the queries the
    script uses ([Graph.triples], [Graph.subjects], [Graph.objects]) are
    pattern matches over that set.  Printing is modelled by a state monad
    over the lines written to standard output; each [print] of the script is
    one constructor of [line], holding the values the f-string interpolates. *)

From Stdlib Require Import Ascii String.
From stdpp Require Import base decidable countable list strings gmap sets.


(** ** RDF terms, triples and graphs *)

Module Rdf.

(** rdflib's three kinds of node.  A [Literal] carries its lexical form, an
    optional datatype and an optional language tag, and two literals are
    equal when the three agree. *)
Inductive term : Type :=
  | URIRef (uri : string)
  | BNode (id : string)
  | Literal (lexical : string) (datatype : option string) (language : option string).

#[global] Instance term_eq_dec : EqDecision term.
Proof. solve_decision. Defined.

Definition term_to_sum (t : term) : string + string + string * option string * option string :=
  match t with
  | URIRef u => inl (inl u)
  | BNode b => inl (inr b)
  | Literal l d g => inr (l, d, g)
  end.

Definition term_of_sum (x : string + string + string * option string * option string) : term :=
  match x with
  | inl (inl u) => URIRef u
  | inl (inr b) => BNode b
  | inr (l, d, g) => Literal l d g
  end.

#[global] Instance term_countable : Countable term.
Proof.
  refine (inj_countable' term_to_sum term_of_sum _).
  by intros [].
Defined.

(** [isinstance(o, Literal)] *)
Definition is_Literal (t : term) : bool :=
  match t with
  | Literal _ _ _ => true
  | _ => false
  end.

(** [str(t)]: every rdflib term is a [str] subclass; its text is the URI,
    the blank-node identifier or the literal's lexical form. *)
Definition str (t : term) : string :=
  match t with
  | URIRef u => u
  | BNode b => b
  | Literal l _ _ => l
  end.

Definition triple : Type := term * term * term.

Definition subj (t : triple) : term := t.1.1.
Definition pred (t : triple) : term := t.1.2.
Definition obj (t : triple) : term := t.2.

(** An rdflib [Graph] is a set of triples. *)
Abbreviation Graph := (gset triple).

(** A triple pattern: [None] is rdflib's wildcard. *)
Definition matches (pat : option term) (t : term) : Prop :=
  match pat with
  | None => True
  | Some x => t = x
  end.

#[global] Instance matches_dec pat t : Decision (matches pat t).
Proof. destruct pat; simpl; apply _. Defined.

(** [graph.triples((s, p, o))]: the triples of the graph that match the
    pattern, each once, in the store's enumeration order. *)
Definition triples (graph : Graph) (s p o : option term) : list triple :=
  filter (λ t, matches s (subj t) ∧ matches p (pred t) ∧ matches o (obj t))
         (elements graph).

(** [graph.subjects(p, o)] *)
Definition subjects (graph : Graph) (p o : term) : list term :=
  subj <$> triples graph None (Some p) (Some o).

(** [graph.objects(s, p)] *)
Definition objects (graph : Graph) (s p : term) : list term :=
  obj <$> triples graph (Some s) (Some p) None.

End Rdf.
Import Rdf.

(** ** Vocabulary *)

Definition OMC (name : string) : term :=
  URIRef ("https://movielabs.com/omc/rdf/schema/v2.8#" +:+ name).
Definition ME (name : string) : term :=
  URIRef ("https://me-nexus.com/id/" +:+ name).
Definition RDF_type : term :=
  URIRef "http://www.w3.org/1999/02/22-rdf-syntax-ns#type".
Definition RDFS_label : term :=
  URIRef "http://www.w3.org/2000/01/rdf-schema#label".

Definition hasLocation : term := OMC "hasLocation".
Definition hasParticipantStructuralCharacteristic : term :=
  OMC "hasParticipantStructuralCharacteristic".
Definition hasIdentifier : term := OMC "hasIdentifier".

(** ** Python string operations used by the script *)

Module Py.

(** [s.split(sep)] for a one-character separator; the result is never
    empty. *)
Fixpoint split (sep : ascii) (s : string) : list string :=
  match s with
  | EmptyString => [EmptyString]
  | String c s' =>
      if bool_decide (c = sep) then EmptyString :: split sep s'
      else match split sep s' with
           | h :: t => String c h :: t
           | [] => [String c EmptyString]
           end
  end.

(** [l[-1]] on a non-empty list. *)
Definition last_item (l : list string) : string := List.last l EmptyString.

(** [s[:n]].  A character of the model is one [ascii]; on text outside
    ASCII Python counts code points where the model counts bytes, so the
    two agree when [is_ascii] holds of the text. *)
Fixpoint slice_to (n : nat) (s : string) : string :=
  match n, s with
  | S n', String c s' => String c (slice_to n' s')
  | _, _ => EmptyString
  end.

(** [s.isascii()] *)
Fixpoint is_ascii (s : string) : bool :=
  match s with
  | EmptyString => true
  | String c s' => bool_decide (nat_of_ascii c < 128) && is_ascii s'
  end.

(** [c.lower()] on the letters A-Z; every other character is kept. *)
Definition lower_char (c : ascii) : ascii :=
  let n := nat_of_ascii c in
  if bool_decide (65 ≤ n ≤ 90) then ascii_of_nat (n + 32) else c.

(** [s.lower()] *)
Fixpoint lower (s : string) : string :=
  match s with
  | EmptyString => EmptyString
  | String c s' => String (lower_char c) (lower s')
  end.

(** [needle in hay] *)
Fixpoint contains (needle hay : string) : bool :=
  String.prefix needle hay ||
  match hay with
  | EmptyString => false
  | String _ hay' => contains needle hay'
  end.

End Py.

Example split_uri : Py.split "/" "https://me-nexus.com/id/abc" = ["https:"; ""; "me-nexus.com"; "id"; "abc"].
Proof. reflexivity. Qed.
Example split_none : Py.split "/" "b0" = ["b0"].
Proof. reflexivity. Qed.
Example lower_ex : Py.lower "St. Paul, MINESsotta" = "st. paul, minessotta".
Proof. reflexivity. Qed.
Example contains_ex : Py.contains "minessotta" (Py.lower "St. Paul, MINESsotta") = true.
Proof. reflexivity. Qed.

(** ** Standard output *)

(** The entries of [quality_issues] (lines 108, 117 and 118). *)
Inductive issue : Type :=
  | Spelling (o : string)
  | CircularReferences (circular : nat)
  | RecommendBlankNodes.

(** One constructor per [print] of the script, with the interpolated
    values. *)
Inductive line : Type :=
  | Rule
  | Title
  | Loaded (n : nat)
  | FailedToParse (e : string)
  | CheckingEntityTypes
  | EntityFound (name : string) (count : nat)
  | EntityMissing (name : string)
  | CheckingLocationReferences
  | CriticalErrorsFound
  | LocationError (s : string) (o : string)
  | FixRemoveQuotes
  | AllLocationReferencesAreURIs
  | CheckingConnection
  | ConnectionUsesLiteral
  | ConnectionOk (participant : string)
  | NoConnectionFound
  | ExpectedConnection
  | CheckingDataQuality
  | QualityIssuesFound
  | QualityIssue (i : issue)
  | NoQualityIssues
  | ValidationPassed
  | AllPresentAndConnected
  | NoteQualityIssues (n : nat)
  | ValidationFailed
  | CriticalIssuesMustBeFixed
  | Usage
  | RdflibNotInstalled.

#[global] Instance issue_eq_dec : EqDecision issue.
Proof. solve_decision. Defined.
#[global] Instance line_eq_dec : EqDecision line.
Proof. solve_decision. Defined.

(** A computation that may print: it takes the lines already on standard
    output and returns its result with the lines after it ran. *)
Definition IO (A : Type) : Type := list line → A * list line.

#[global] Instance IO_ret : MRet IO := λ A x out, (x, out).
#[global] Instance IO_bind : MBind IO := λ A B f m out, f (m out).1 (m out).2.

Definition print (l : line) : IO unit := λ out, (tt, out ++ [l]).

(** [for x in xs: body], with the variables the body assigns threaded
    through as [s]. *)
Fixpoint for_each {A S : Type} (xs : list A) (body : A → S → IO S) (s : S) : IO S :=
  match xs with
  | [] => mret s
  | x :: xs' => s' ← body x s; for_each xs' body s'
  end.

(** Truth value of a list in a condition. *)
Definition truthy {A : Type} (l : list A) : bool :=
  match l with [] => false | _ => true end.

(** ** The validator *)

(** [s.split('/')[-1][:n]] *)
Definition short_name (n : nat) (s : term) : string :=
  Py.slice_to n (Py.last_item (Py.split "/" (str s))).

Definition requirements : list (string * term) :=
  [ ("CreativeWork", OMC "CreativeWork");
    ("Participant", OMC "Participant");
    ("Person", OMC "Person");
    ("Location", OMC "Location");
    ("Asset", OMC "Asset") ].

(** Check 1 (lines 44-60). *)
Definition check_entity_types (graph : Graph) (passed : bool) : IO bool :=
  print CheckingEntityTypes ;;
  for_each requirements (λ '(name, entity_type) passed,
    let count := length (subjects graph RDF_type entity_type) in
    if bool_decide (0 < count)
    then print (EntityFound name count) ;; mret passed
    else print (EntityMissing name) ;; mret false) passed.

(** The loop of lines 64-67. *)
Definition location_errors (graph : Graph) : list line :=
  foldl (λ location_errors '(s, p, o),
           if is_Literal o
           then location_errors ++ [LocationError (short_name 20 s) (str o)]
           else location_errors)
        [] (triples graph None (Some hasLocation) None).

(** Check 2 (lines 62-76). *)
Definition check_location_references (graph : Graph) (passed : bool) : IO bool :=
  print CheckingLocationReferences ;;
  let location_errors := location_errors graph in
  if truthy location_errors then
    print CriticalErrorsFound ;;
    for_each location_errors (λ error _, print error) tt ;;
    print FixRemoveQuotes ;;
    mret false
  else
    print AllLocationReferencesAreURIs ;;
    mret passed.

(** Check 3 (lines 78-97); the result is [passed]. *)
Definition check_connection (graph : Graph) (passed : bool) : IO bool :=
  print CheckingConnection ;;
  let participants := subjects graph RDF_type (OMC "Participant") in
  let connection_found := false in
  '(passed, connection_found) ←
    for_each participants (λ participant vars,
      for_each (objects graph participant hasParticipantStructuralCharacteristic) (λ person vars,
        for_each (objects graph person hasLocation) (λ location '(passed, connection_found),
          if is_Literal location
          then print ConnectionUsesLiteral ;; mret (false, connection_found)
          else print (ConnectionOk (short_name 15 participant)) ;; mret (passed, true))
        vars) vars) (passed, connection_found);
  (if negb connection_found
   then print NoConnectionFound ;; print ExpectedConnection
   else mret tt) ;;
  mret passed.

(** The loop of lines 104-108. *)
Definition spelling_issues (graph : Graph) : list issue :=
  foldl (λ quality_issues '(s, p, o),
           if is_Literal o then
             let label := Py.lower (str o) in
             if Py.contains "minessotta" label
             then quality_issues ++ [Spelling (str o)]
             else quality_issues
           else quality_issues)
        [] (triples graph None (Some RDFS_label) None).

(** The loop of lines 111-114. *)
Definition circular (graph : Graph) : nat :=
  foldl (λ circular '(s, p, o),
           if bool_decide (str s = str o) then circular + 1 else circular)
        0 (triples graph None (Some hasIdentifier) None).

(** [quality_issues] as it stands at line 120. *)
Definition quality_issues (graph : Graph) : list issue :=
  let quality_issues := spelling_issues graph in
  let circular := circular graph in
  if bool_decide (0 < circular)
  then quality_issues ++ [CircularReferences circular; RecommendBlankNodes]
  else quality_issues.

(** Check 4 (lines 99-125); the result is [quality_issues]. *)
Definition check_data_quality (graph : Graph) : IO (list issue) :=
  print CheckingDataQuality ;;
  let quality_issues := quality_issues graph in
  (if truthy quality_issues then
     print QualityIssuesFound ;;
     for_each quality_issues (λ issue _, print (QualityIssue issue)) tt
   else print NoQualityIssues) ;;
  mret quality_issues.

(** Summary (lines 127-137). *)
Definition summary (passed : bool) (quality_issues : list issue) : IO unit :=
  print Rule ;;
  (if passed then
     print ValidationPassed ;;
     print AllPresentAndConnected ;;
     if truthy quality_issues
     then print (NoteQualityIssues (length quality_issues))
     else mret tt
   else
     print ValidationFailed ;;
     print CriticalIssuesMustBeFixed) ;;
  print Rule.

(** Lines 42-139: the checks on a loaded graph. *)
Definition run_checks (graph : Graph) : IO bool :=
  let passed := true in
  passed ← check_entity_types graph passed;
  passed ← check_location_references graph passed;
  passed ← check_connection graph passed;
  quality_issues ← check_data_quality graph;
  summary passed quality_issues ;;
  mret passed.

Section Program.

(** [Graph().parse(ttl_file, format='turtle')]: rdflib's loader, which
    either raises (the message is kept) or yields the graph.  One call is
    one load; a later load of the same file may name the blank nodes
    differently (see [rename_blank_nodes]). *)
Variable parse : string → string + Graph.

(** [validate_milestone1] (lines 27-139). *)
Definition validate_milestone1 (ttl_file : string) : IO bool :=
  print Rule ;;
  print Title ;;
  print Rule ;;
  match parse ttl_file with
  | inl e =>
      print (FailedToParse e) ;;
      mret false
  | inr graph =>
      print (Loaded (size graph)) ;;
      run_checks graph
  end.

(** The [__main__] block (lines 142-148); the result is the exit status. *)
Definition main (argv : list string) : IO nat :=
  if bool_decide (length argv < 2) then
    print Usage ;;
    mret 1
  else
    result ← validate_milestone1 (default EmptyString (argv !! 1));
    mret (if result : bool then 0 else 1).

(** The script as a whole: the import guard of lines 16-21, then the
    [__main__] block.  [rdflib_installed] tells whether the import of
    line 17 succeeds. *)
Definition script (rdflib_installed : bool) (argv : list string) : IO nat :=
  if rdflib_installed then main argv
  else
    print RdflibNotInstalled ;;
    mret 1.

End Program.

(** ** Queries: what the enumerations contain *)

Section Queries.

Context (graph : Graph).

Lemma elem_of_triples s p o t :
  t ∈ triples graph s p o ↔
  t ∈ graph ∧ matches s (subj t) ∧ matches p (pred t) ∧ matches o (obj t).
Proof.
  unfold triples. rewrite list_elem_of_filter, elem_of_elements. tauto.
Qed.

Lemma NoDup_triples s p o : NoDup (triples graph s p o).
Proof. apply NoDup_filter, NoDup_elements. Qed.

Lemma elem_of_subjects p o x : x ∈ subjects graph p o ↔ (x, p, o) ∈ graph.
Proof.
  unfold subjects. rewrite list_elem_of_fmap. split.
  - intros ([[s' p'] o'] & -> & Ht). apply elem_of_triples in Ht.
    destruct Ht as (Hin & _ & Hp & Ho). unfold subj, pred, obj in *. simpl in *. by subst.
  - intros Hin. exists (x, p, o). split; [done|].
    apply elem_of_triples. simpl. done.
Qed.

Lemma NoDup_subjects p o : NoDup (subjects graph p o).
Proof.
  unfold subjects. apply NoDup_fmap_2_strong; [|apply NoDup_triples].
  intros [[s1 p1] o1] [[s2 p2] o2] H1 H2 Heq.
  apply elem_of_triples in H1, H2. unfold subj, pred, obj in *. simpl in *.
  destruct H1 as (_ & _ & ? & ?), H2 as (_ & _ & ? & ?). congruence.
Qed.

Lemma elem_of_objects s p x : x ∈ objects graph s p ↔ (s, p, x) ∈ graph.
Proof.
  unfold objects. rewrite list_elem_of_fmap. split.
  - intros ([[s' p'] o'] & -> & Ht). apply elem_of_triples in Ht.
    destruct Ht as (Hin & Hs & Hp & _). unfold subj, pred, obj in *. simpl in *. by subst.
  - intros Hin. exists (s, p, x). split; [done|].
    apply elem_of_triples. simpl. done.
Qed.

Lemma NoDup_objects s p : NoDup (objects graph s p).
Proof.
  unfold objects. apply NoDup_fmap_2_strong; [|apply NoDup_triples].
  intros [[s1 p1] o1] [[s2 p2] o2] H1 H2 Heq.
  apply elem_of_triples in H1, H2. unfold subj, pred, obj in *. simpl in *.
  destruct H1 as (_ & ? & ? & _), H2 as (_ & ? & ? & _). congruence.
Qed.

(** The number of triples an enumeration yields is the size of the
    matching subset of the graph. *)
Lemma length_triples s p o :
  length (triples graph s p o) =
  size (filter (λ t, matches s (subj t) ∧ matches p (pred t) ∧ matches o (obj t)) graph).
Proof.
  unfold size, set_size. simpl. apply Permutation_length, NoDup_Permutation.
  - apply NoDup_triples.
  - apply NoDup_elements.
  - intros t. rewrite elem_of_triples, elem_of_elements, elem_of_filter. tauto.
Qed.

End Queries.

(** ** Running [IO] computations *)

Lemma bind_run {A B} (m : IO A) (f : A → IO B) out a out' :
  m out = (a, out') → (m ≫= f) out = f a out'.
Proof. unfold mbind, IO_bind. by intros ->. Qed.

Lemma print_bind_run {B} l (f : unit → IO B) out :
  (print l ≫= f) out = f tt (out ++ [l]).
Proof. done. Qed.

Lemma ret_bind_run {A B} (x : A) (f : A → IO B) out :
  (mret x ≫= f) out = f x out.
Proof. done. Qed.

Lemma ret_run {A} (x : A) out : (mret x : IO A) out = (x, out).
Proof. done. Qed.

Section ForEach.

Context {A S : Type}.
Implicit Types (xs : list A) (body : A → S → IO S).

Lemma for_each_ext xs body1 body2 s out :
  (∀ x s out, body1 x s out = body2 x s out) →
  for_each xs body1 s out = for_each xs body2 s out.
Proof.
  intros Hext. revert s out. induction xs as [|x xs IH]; intros s out; [done|].
  simpl. unfold mbind, IO_bind. rewrite Hext. apply IH.
Qed.

Lemma for_each_app xs ys body s out :
  for_each (xs ++ ys) body s out =
  for_each ys body (for_each xs body s out).1 (for_each xs body s out).2.
Proof.
  revert s out. induction xs as [|x xs IH]; intros s out; [done|].
  simpl. unfold mbind, IO_bind. apply IH.
Qed.

(** A loop whose body prints [w x] and updates the variables by [f x]
    prints the [w x] in order and folds [f] over the list. *)
Lemma for_each_run xs body (f : A → S → S) (w : A → list line) :
  (∀ x s out, body x s out = (f x s, out ++ w x)) →
  ∀ s out, for_each xs body s out = (foldl (λ s x, f x s) s xs, out ++ (xs ≫= w)).
Proof.
  intros Hbody. induction xs as [|x xs IH]; intros s out; simpl.
  - by rewrite app_nil_r.
  - erewrite bind_run by apply Hbody. rewrite IH. by rewrite <-app_assoc.
Qed.

End ForEach.

Lemma for_each_fmap {A B S} (g : A → B) (xs : list A) (body : B → S → IO S) s out :
  for_each (g <$> xs) body s out = for_each xs (λ x, body (g x)) s out.
Proof.
  revert s out. induction xs as [|x xs IH]; intros s out; [done|].
  simpl. unfold mbind, IO_bind. apply IH.
Qed.

(** Nested loops run as one loop over the flattened list. *)
Lemma for_each_nested {A B S} (k : A → list B) (xs : list A) (body : B → S → IO S) s out :
  for_each xs (λ x s, for_each (k x) body s) s out = for_each (xs ≫= k) body s out.
Proof.
  revert s out. induction xs as [|x xs IH]; intros s out; [done|].
  simpl. rewrite for_each_app. unfold mbind at 1, IO_bind at 1. apply IH.
Qed.

Lemma bind_singleton {A B} (f : A → B) (xs : list A) :
  xs ≫= (λ x, [f x]) = f <$> xs.
Proof. induction xs as [|x xs IH]; simpl; [done|]. by f_equal. Qed.

Lemma for_each_print {A} (xs : list A) (l : A → line) out :
  for_each xs (λ x _, print (l x)) tt out = (tt, out ++ (l <$> xs)).
Proof.
  rewrite (for_each_run xs _ (λ _ _, tt) (λ x, [l x])) by done.
  rewrite bind_singleton. by destruct (foldl _ _ _).
Qed.

(** ** What each check computes *)

(** *** Check 1 *)

Definition entity_count (graph : Graph) (entity_type : term) : nat :=
  length (subjects graph RDF_type entity_type).

Definition entity_line (graph : Graph) (r : string * term) : line :=
  if bool_decide (0 < entity_count graph r.2)
  then EntityFound r.1 (entity_count graph r.2)
  else EntityMissing r.1.

Definition entity_types_ok (graph : Graph) : bool :=
  forallb (λ r, bool_decide (0 < entity_count graph r.2)) requirements.

Lemma check_entity_types_run graph passed out :
  check_entity_types graph passed out =
  (passed && entity_types_ok graph,
   out ++ CheckingEntityTypes :: (entity_line graph <$> requirements)).
Proof.
  unfold check_entity_types. rewrite print_bind_run.
  rewrite (for_each_run requirements _
             (λ r s, if bool_decide (0 < entity_count graph r.2) then s else false)
             (λ r, [entity_line graph r])).
  - unfold entity_types_ok. f_equal.
    + generalize requirements. intros rs. revert passed.
      induction rs as [|r rs IH]; intros passed; simpl.
      * by rewrite andb_true_r.
      * rewrite IH. by destruct (bool_decide _), passed.
    + by rewrite bind_singleton, <-app_assoc.
  - intros [name entity_type] s o. unfold entity_line, entity_count. simpl.
    by destruct (bool_decide _).
Qed.

(** *** Check 2 *)

Definition location_error_of (t : triple) : line :=
  LocationError (short_name 20 (subj t)) (str (obj t)).

Lemma location_errors_eq graph :
  location_errors graph =
  location_error_of <$>
    filter (λ t, is_Literal (obj t)) (triples graph None (Some hasLocation) None).
Proof.
  unfold location_errors.
  generalize (triples graph None (Some hasLocation) None). intros ts.
  enough (Hacc : ∀ acc,
    foldl (λ location_errors '(s, p, o),
             if is_Literal o
             then location_errors ++ [LocationError (short_name 20 s) (str o)]
             else location_errors) acc ts
    = acc ++ (location_error_of <$> filter (λ t, is_Literal (obj t)) ts))
    by apply (Hacc []).
  induction ts as [|[[s p] o] ts IH]; intros acc; simpl.
  - by rewrite app_nil_r.
  - rewrite IH, filter_cons. unfold obj at 2. simpl.
    destruct (is_Literal o) eqn:Ho.
    + rewrite decide_True by done. by rewrite fmap_cons, <-app_assoc.
    + rewrite decide_False; [done|]. by intros [].
Qed.

Lemma check_location_references_run graph passed out :
  check_location_references graph passed out =
  (passed && negb (truthy (location_errors graph)),
   out ++ CheckingLocationReferences ::
     (if truthy (location_errors graph)
      then CriticalErrorsFound :: location_errors graph ++ [FixRemoveQuotes]
      else [AllLocationReferencesAreURIs])).
Proof.
  unfold check_location_references. rewrite print_bind_run.
  destruct (truthy (location_errors graph)); simpl.
  - rewrite print_bind_run.
    erewrite bind_run by apply (for_each_print _ (λ e, e)).
    rewrite print_bind_run, ret_run, andb_false_r, list_fmap_id.
    f_equal. rewrite <-!app_assoc. done.
  - rewrite print_bind_run, ret_run, andb_true_r. by rewrite <-app_assoc.
Qed.

(** *** Check 3 *)

(** The (participant, person, location) triples the three nested loops
    visit, in the order they visit them. *)
Definition chains (graph : Graph) : list (term * term * term) :=
  participant ← subjects graph RDF_type (OMC "Participant");
  person ← objects graph participant hasParticipantStructuralCharacteristic;
  location ← objects graph person hasLocation;
  [(participant, person, location)].

Definition chain_line (c : term * term * term) : line :=
  if is_Literal c.2 then ConnectionUsesLiteral
  else ConnectionOk (short_name 15 c.1.1).

(** No visited location is a literal. *)
Definition connections_ok (graph : Graph) : bool :=
  forallb (λ c, negb (is_Literal c.2)) (chains graph).

(** [connection_found] at line 95. *)
Definition connection_found (graph : Graph) : bool :=
  existsb (λ c, negb (is_Literal c.2)) (chains graph).

Lemma check_connection_run graph passed out :
  check_connection graph passed out =
  (passed && connections_ok graph,
   out ++ CheckingConnection :: (chain_line <$> chains graph) ++
     (if connection_found graph then [] else [NoConnectionFound; ExpectedConnection])).
Proof.
  unfold check_connection. rewrite print_bind_run.
  set (body := λ (c : term * term * term) (vars : bool * bool),
         let '(passed, connection_found) := vars in
         if is_Literal c.2
         then print ConnectionUsesLiteral ;; mret (false, connection_found)
         else print (ConnectionOk (short_name 15 c.1.1)) ;; mret (passed, true)).
  assert (Hflat : ∀ vars o,
    for_each (subjects graph RDF_type (OMC "Participant")) (λ participant vars,
      for_each (objects graph participant hasParticipantStructuralCharacteristic) (λ person vars,
        for_each (objects graph person hasLocation) (λ location '(passed, connection_found),
          if is_Literal location
          then print ConnectionUsesLiteral ;; mret (false, connection_found)
          else print (ConnectionOk (short_name 15 participant)) ;; mret (passed, true))
        vars) vars) vars o
    = for_each (chains graph) body vars o).
  { intros vars o. unfold chains. rewrite <-for_each_nested.
    apply for_each_ext. intros participant vars1 o1.
    rewrite <-for_each_nested. apply for_each_ext. intros person vars2 o2.
    rewrite <-for_each_nested. apply for_each_ext. intros location [p c] o3.
    simpl. unfold mbind at 3, IO_bind. simpl.
    by destruct (is_Literal location). }
  erewrite bind_run; cycle 1.
  { rewrite Hflat.
    apply (for_each_run _ body
             (λ c vars, if is_Literal c.2 then (false, vars.2) else (vars.1, true))
             (λ c, [chain_line c])).
    intros [[p h] l] [v1 v2] o. unfold body, chain_line. simpl.
    by destruct (is_Literal l). }
  assert (Hfold : ∀ cs v1 v2,
    foldl (λ (vars : bool * bool) (c : term * term * term),
             if is_Literal c.2 then (false, vars.2) else (vars.1, true)) (v1, v2) cs
    = (v1 && forallb (λ c, negb (is_Literal c.2)) cs,
       v2 || existsb (λ c, negb (is_Literal c.2)) cs)).
  { induction cs as [|c cs IH]; intros v1 v2; simpl.
    - by rewrite andb_true_r, orb_false_r.
    - destruct (is_Literal c.2); simpl; rewrite IH; simpl.
      + by rewrite andb_false_r.
      + by rewrite orb_true_r. }
  rewrite Hfold. cbv beta iota. rewrite orb_false_l. fold (connection_found graph) (connections_ok graph).
  rewrite bind_singleton.
  destruct (connection_found graph); cbn [negb].
  - rewrite ret_bind_run, ret_run. f_equal. by rewrite <-app_assoc, app_nil_r.
  - erewrite bind_run by (rewrite print_bind_run; reflexivity).
    rewrite ret_run. f_equal. by rewrite <-!app_assoc.
Qed.

(** *** Check 4 *)

(** The test of lines 105-107 on one [label] triple. *)
Definition misspelled (t : triple) : Prop :=
  is_Literal (obj t) ∧ Py.contains "minessotta" (Py.lower (str (obj t))).

#[global] Instance misspelled_dec t : Decision (misspelled t).
Proof. unfold misspelled. apply _. Defined.

(** What the loop of lines 104-108 adds to [quality_issues] for one
    [label] triple. *)
Definition spelling_issue_of (t : triple) : list issue :=
  if decide (misspelled t) then [Spelling (str (obj t))] else [].

Lemma spelling_issues_eq graph :
  spelling_issues graph =
  triples graph None (Some RDFS_label) None ≫= spelling_issue_of.
Proof.
  unfold spelling_issues.
  generalize (triples graph None (Some RDFS_label) None). intros ts.
  enough (Hacc : ∀ acc,
    foldl (λ quality_issues '(s, p, o),
             if is_Literal o then
               let label := Py.lower (str o) in
               if Py.contains "minessotta" label
               then quality_issues ++ [Spelling (str o)]
               else quality_issues
             else quality_issues) acc ts
    = acc ++ (ts ≫= spelling_issue_of))
    by apply (Hacc []).
  induction ts as [|[[s p] o] ts IH]; intros acc; simpl.
  - by rewrite app_nil_r.
  - rewrite IH. unfold spelling_issue_of at 2.
    destruct (decide (misspelled (s, p, o))) as [[Hl Hc]|Hn];
      unfold misspelled, obj in *; simpl in *.
    + apply Is_true_true in Hl, Hc. rewrite Hl, Hc. by rewrite <-app_assoc.
    + destruct (is_Literal o); [|done].
      destruct (Py.contains _ _); [|done]. by destruct Hn.
Qed.

Lemma circular_eq graph :
  circular graph =
  length (filter (λ t, str (subj t) = str (obj t))
                 (triples graph None (Some hasIdentifier) None)).
Proof.
  unfold circular.
  generalize (triples graph None (Some hasIdentifier) None). intros ts.
  enough (Hacc : ∀ n,
    foldl (λ circular '(s, p, o),
             if bool_decide (str s = str o) then circular + 1 else circular) n ts
    = n + length (filter (λ t, str (subj t) = str (obj t)) ts))
    by apply (Hacc 0).
  induction ts as [|[[s p] o] ts IH]; intros n; simpl.
  - lia.
  - rewrite IH, filter_cons. unfold subj at 2, obj at 2. simpl.
    case_bool_decide.
    + rewrite decide_True by done. simpl. by rewrite <-Nat.add_assoc.
    + by rewrite decide_False.
Qed.

Lemma check_data_quality_run graph out :
  check_data_quality graph out =
  (quality_issues graph,
   out ++ CheckingDataQuality ::
     (if truthy (quality_issues graph)
      then QualityIssuesFound :: (QualityIssue <$> quality_issues graph)
      else [NoQualityIssues])).
Proof.
  unfold check_data_quality. rewrite print_bind_run.
  destruct (truthy (quality_issues graph)).
  - erewrite bind_run.
    2:{ rewrite print_bind_run. apply for_each_print. }
    rewrite ret_run. f_equal. by rewrite <-!app_assoc.
  - rewrite print_bind_run, ret_run. by rewrite <-app_assoc.
Qed.

(** *** Summary and whole run *)

Definition summary_lines (passed : bool) (quality_issues : list issue) : list line :=
  Rule ::
  (if passed then
     ValidationPassed :: AllPresentAndConnected ::
     (if truthy quality_issues then [NoteQualityIssues (length quality_issues)] else [])
   else [ValidationFailed; CriticalIssuesMustBeFixed]) ++ [Rule].

Lemma summary_run passed quality_issues out :
  summary passed quality_issues out = (tt, out ++ summary_lines passed quality_issues).
Proof.
  unfold summary, summary_lines. rewrite print_bind_run.
  destruct passed.
  - destruct (truthy quality_issues).
    + erewrite bind_run by (rewrite !print_bind_run; reflexivity).
      unfold print. f_equal. by rewrite <-!app_assoc.
    + erewrite bind_run by (rewrite !print_bind_run; reflexivity).
      unfold print. f_equal. by rewrite <-!app_assoc.
  - erewrite bind_run by (rewrite !print_bind_run; reflexivity).
    unfold print. f_equal. by rewrite <-!app_assoc.
Qed.

(** The value [passed] has at line 139. *)
Definition verdict (graph : Graph) : bool :=
  entity_types_ok graph && negb (truthy (location_errors graph)) && connections_ok graph.

(** The lines each check prints, headers included. *)
Definition entity_types_lines (graph : Graph) : list line :=
  CheckingEntityTypes :: (entity_line graph <$> requirements).

Definition location_references_lines (graph : Graph) : list line :=
  CheckingLocationReferences ::
  (if truthy (location_errors graph)
   then CriticalErrorsFound :: location_errors graph ++ [FixRemoveQuotes]
   else [AllLocationReferencesAreURIs]).

Definition connection_lines (graph : Graph) : list line :=
  CheckingConnection :: (chain_line <$> chains graph) ++
  (if connection_found graph then [] else [NoConnectionFound; ExpectedConnection]).

Definition data_quality_lines (graph : Graph) : list line :=
  CheckingDataQuality ::
  (if truthy (quality_issues graph)
   then QualityIssuesFound :: (QualityIssue <$> quality_issues graph)
   else [NoQualityIssues]).

(** Everything lines 42-139 print for a graph. *)
Definition report (graph : Graph) : list line :=
  entity_types_lines graph ++ location_references_lines graph ++
  connection_lines graph ++ data_quality_lines graph ++
  summary_lines (verdict graph) (quality_issues graph).

Lemma run_checks_run graph out :
  run_checks graph out = (verdict graph, out ++ report graph).
Proof.
  unfold run_checks.
  erewrite bind_run by apply check_entity_types_run.
  erewrite bind_run by apply check_location_references_run.
  erewrite bind_run by apply check_connection_run.
  erewrite bind_run by apply check_data_quality_run.
  erewrite bind_run by apply summary_run.
  rewrite ret_run. unfold verdict, report. simpl andb. f_equal.
  unfold entity_types_lines, location_references_lines, connection_lines,
    data_quality_lines.
  by rewrite <-!app_assoc.
Qed.

Section ProgramRuns.

Variable parse : string → string + Graph.

Lemma validate_milestone1_run ttl_file out :
  validate_milestone1 parse ttl_file out =
  match parse ttl_file with
  | inl e => (false, out ++ [Rule; Title; Rule; FailedToParse e])
  | inr graph => (verdict graph, out ++ [Rule; Title; Rule; Loaded (size graph)] ++ report graph)
  end.
Proof.
  unfold validate_milestone1. rewrite !print_bind_run.
  destruct (parse ttl_file) as [e|graph].
  - rewrite print_bind_run, ret_run. by rewrite <-!app_assoc.
  - rewrite print_bind_run, run_checks_run. f_equal. by rewrite <-!app_assoc.
Qed.

End ProgramRuns.

(** ** The checks in terms of the graph's triples *)

(** The subjects typed [entity_type], as a set. *)
Definition instances (graph : Graph) (entity_type : term) : gset term :=
  set_map subj (filter (λ t, pred t = RDF_type ∧ obj t = entity_type) graph).

(** Some subject is typed [entity_type]. *)
Definition present (graph : Graph) (entity_type : term) : Prop :=
  ∃ s, (s, RDF_type, entity_type) ∈ graph.

(** [location] is reached from a subject typed Participant through
    [hasParticipantStructuralCharacteristic] and then [hasLocation]. *)
Definition chain (graph : Graph) (participant person location : term) : Prop :=
  (participant, RDF_type, OMC "Participant") ∈ graph ∧
  (participant, hasParticipantStructuralCharacteristic, person) ∈ graph ∧
  (person, hasLocation, location) ∈ graph.

(** The [hasLocation] triples whose object is a literal. *)
Definition literal_locations (graph : Graph) : gset triple :=
  filter (λ t, pred t = hasLocation ∧ is_Literal (obj t)) graph.

(** The [hasIdentifier] triples whose subject and object have the same
    text. *)
Definition circular_triples (graph : Graph) : gset triple :=
  filter (λ t, pred t = hasIdentifier ∧ str (subj t) = str (obj t)) graph.

(** The [hasIdentifier] triples whose subject is their object. *)
Definition self_loops (graph : Graph) : gset triple :=
  filter (λ t, pred t = hasIdentifier ∧ subj t = obj t) graph.

(** The [label] triples the lexical check flags. *)
Definition misspelled_labels (graph : Graph) : gset triple :=
  filter (λ t, pred t = RDFS_label ∧ misspelled t) graph.

Section Declarative.

Context (graph : Graph).

Lemma elem_of_instances entity_type s :
  s ∈ instances graph entity_type ↔ (s, RDF_type, entity_type) ∈ graph.
Proof.
  unfold instances. rewrite elem_of_map. split.
  - intros ([[s' p] o] & -> & Ht). apply elem_of_filter in Ht.
    unfold subj, pred, obj in *. simpl in *. by destruct Ht as [[-> ->] ?].
  - intros Hin. exists (s, RDF_type, entity_type). split; [done|].
    by apply elem_of_filter.
Qed.

Lemma instances_subjects entity_type :
  instances graph entity_type = list_to_set (subjects graph RDF_type entity_type).
Proof.
  apply set_eq. intros s.
  by rewrite elem_of_instances, elem_of_list_to_set, elem_of_subjects.
Qed.

Lemma entity_count_size entity_type :
  entity_count graph entity_type = size (instances graph entity_type).
Proof.
  rewrite instances_subjects, size_list_to_set; [done|]. apply NoDup_subjects.
Qed.

Lemma entity_count_pos entity_type :
  0 < entity_count graph entity_type ↔ present graph entity_type.
Proof.
  unfold entity_count, present. split.
  - intros Hlen. destruct (subjects graph RDF_type entity_type) as [|s l] eqn:Hs.
    + simpl in Hlen. lia.
    + exists s. apply elem_of_subjects. rewrite Hs. apply list_elem_of_here.
  - intros [s Hs]. apply elem_of_subjects in Hs.
    destruct (subjects graph RDF_type entity_type); [|simpl; lia].
    by apply not_elem_of_nil in Hs.
Qed.

Lemma entity_types_ok_iff :
  entity_types_ok graph = true ↔
  ∀ name entity_type, (name, entity_type) ∈ requirements → present graph entity_type.
Proof.
  unfold entity_types_ok. rewrite <-Is_true_true, forallb_True, Forall_forall. split.
  - intros H name entity_type Hin. apply entity_count_pos.
    specialize (H _ Hin). simpl in H. by apply bool_decide_unpack in H.
  - intros H [name entity_type] Hin. simpl.
    apply bool_decide_pack, entity_count_pos. by eapply H.
Qed.

Lemma truthy_false {A} (l : list A) : truthy l = false ↔ l = [].
Proof. by destruct l. Qed.

Lemma truthy_true {A} (l : list A) : truthy l = true ↔ l ≠ [].
Proof. by destruct l. Qed.

Lemma elem_of_location_errors e :
  e ∈ location_errors graph ↔
  ∃ t, e = location_error_of t ∧ t ∈ literal_locations graph.
Proof.
  rewrite location_errors_eq, list_elem_of_fmap.
  split; intros (t & -> & Ht); exists t; (split; [done|]).
  - apply list_elem_of_filter in Ht as [Hl Ht].
    apply elem_of_triples in Ht as (Hin & _ & Hp & _).
    apply elem_of_filter. simpl in Hp. done.
  - apply elem_of_filter in Ht as [[Hp Hl] Hin].
    apply list_elem_of_filter. split; [done|]. by apply elem_of_triples.
Qed.

Lemma length_location_errors :
  length (location_errors graph) = size (literal_locations graph).
Proof.
  rewrite location_errors_eq, length_fmap.
  unfold literal_locations, size, set_size. simpl.
  apply Permutation_length, NoDup_Permutation.
  - apply NoDup_filter, NoDup_triples.
  - apply NoDup_elements.
  - intros t. rewrite list_elem_of_filter, elem_of_triples, elem_of_elements,
      elem_of_filter. simpl. tauto.
Qed.

Lemma location_errors_nil_iff :
  location_errors graph = [] ↔
  ∀ s o, (s, hasLocation, o) ∈ graph → ¬ is_Literal o.
Proof.
  split.
  - intros Hnil s o Hin Hl.
    assert (He : location_error_of (s, hasLocation, o) ∈ location_errors graph).
    { apply elem_of_location_errors. eexists. split; [done|]. by apply elem_of_filter. }
    rewrite Hnil in He. by apply not_elem_of_nil in He.
  - intros Hall. destruct (location_errors graph) as [|e l] eqn:He; [done|].
    assert (Hin : e ∈ location_errors graph) by (rewrite He; apply list_elem_of_here).
    apply elem_of_location_errors in Hin as ([[s p] o] & _ & Ht).
    apply elem_of_filter in Ht as [[Hp Hl] Hin].
    unfold pred, obj in *. simpl in *. subst p. by destruct (Hall s o).
Qed.

Lemma elem_of_chains participant person location :
  (participant, person, location) ∈ chains graph ↔
  chain graph participant person location.
Proof.
  unfold chains, chain. rewrite list_elem_of_bind. split.
  - intros (p & Hb & Hp). apply elem_of_subjects in Hp.
    apply list_elem_of_bind in Hb as (h & Hb & Hh). apply elem_of_objects in Hh.
    apply list_elem_of_bind in Hb as (l & Hb & Hl). apply elem_of_objects in Hl.
    apply list_elem_of_singleton in Hb. by simplify_eq.
  - intros (Hp & Hh & Hl). exists participant. split; [|by apply elem_of_subjects].
    apply list_elem_of_bind. exists person. split; [|by apply elem_of_objects].
    apply list_elem_of_bind. exists location. split; [|by apply elem_of_objects].
    apply list_elem_of_here.
Qed.

(** Each chain is visited once. *)
Lemma NoDup_chains : NoDup (chains graph).
Proof.
  unfold chains. apply NoDup_bind; [| |apply NoDup_subjects].
  - intros p1 p2 c _ _ H1 H2.
    apply list_elem_of_bind in H1 as (h1 & H1 & _), H2 as (h2 & H2 & _).
    apply list_elem_of_bind in H1 as (l1 & H1 & _), H2 as (l2 & H2 & _).
    apply list_elem_of_singleton in H1, H2. by simplify_eq.
  - intros p _. apply NoDup_bind; [| |apply NoDup_objects].
    + intros h1 h2 c _ _ H1 H2.
      apply list_elem_of_bind in H1 as (l1 & H1 & _), H2 as (l2 & H2 & _).
      apply list_elem_of_singleton in H1, H2. by simplify_eq.
    + intros h _. apply NoDup_bind; [| |apply NoDup_objects].
      * intros l1 l2 c _ _ H1 H2.
        apply list_elem_of_singleton in H1, H2. by simplify_eq.
      * intros l _. apply NoDup_singleton.
Qed.

Lemma connections_ok_iff :
  connections_ok graph = true ↔
  ∀ participant person location,
    chain graph participant person location → ¬ is_Literal location.
Proof.
  unfold connections_ok. rewrite <-Is_true_true, forallb_True, Forall_forall. split.
  - intros H p h l Hc Hl. apply elem_of_chains in Hc.
    specialize (H _ Hc). simpl in H. by destruct (is_Literal l).
  - intros H [[p h] l] Hc. apply elem_of_chains in Hc.
    specialize (H _ _ _ Hc). simpl. by destruct (is_Literal l).
Qed.

Lemma connection_found_iff :
  connection_found graph = true ↔
  ∃ participant person location,
    chain graph participant person location ∧ ¬ is_Literal location.
Proof.
  unfold connection_found. rewrite <-Is_true_true, existb_True, Exists_exists. split.
  - intros ([[p h] l] & Hc & Hl). apply elem_of_chains in Hc.
    exists p, h, l. split; [done|]. by apply negb_True.
  - intros (p & h & l & Hc & Hl). exists (p, h, l).
    split; [by apply elem_of_chains|]. by apply negb_True.
Qed.

Lemma verdict_true_iff :
  verdict graph = true ↔
  (∀ name entity_type, (name, entity_type) ∈ requirements → present graph entity_type) ∧
  (∀ s o, (s, hasLocation, o) ∈ graph → ¬ is_Literal o) ∧
  (∀ participant person location,
     chain graph participant person location → ¬ is_Literal location).
Proof.
  unfold verdict. rewrite !andb_true_iff, negb_true_iff, truthy_false.
  rewrite entity_types_ok_iff, location_errors_nil_iff, connections_ok_iff. tauto.
Qed.

End Declarative.

(** ** Facts about the string operations *)

Section PyFacts.

Lemma app_empty (b : string) : EmptyString +:+ b = b.
Proof. done. Qed.

Lemma app_cons (c : ascii) (a b : string) : String c a +:+ b = String c (a +:+ b).
Proof. done. Qed.

Lemma prefix_iff (needle hay : string) :
  String.prefix needle hay = true ↔ ∃ rest, hay = needle +:+ rest.
Proof.
  revert hay. induction needle as [|c needle IH]; intros hay.
  - destruct hay; simpl; (split; [by eexists|done]).
  - destruct hay as [|d hay]; simpl.
    + split; [done|]. by intros [rest ?].
    + setoid_rewrite app_cons.
      destruct (Ascii.ascii_dec c d) as [->|Hne].
      * rewrite IH. split; intros [rest Hr]; exists rest; congruence.
      * split; [done|]. intros [rest Hr]. congruence.
Qed.

Lemma contains_iff (needle hay : string) :
  Py.contains needle hay = true ↔ ∃ before after, hay = before +:+ needle +:+ after.
Proof.
  induction hay as [|c hay IH]; cbn [Py.contains]; rewrite orb_true_iff, prefix_iff.
  - split.
    + intros [[rest Hr]|?]; [|done]. by exists EmptyString, rest.
    + intros ([|? ?] & after & Hr); [|done]. left. by exists after.
  - rewrite IH. split.
    + intros [[rest Hr]|(before & after & Hr)].
      * by exists EmptyString, rest.
      * exists (String c before), after. by rewrite app_cons, Hr.
    + intros ([|d before] & after & Hr).
      * left. by exists after.
      * right. exists before, after. rewrite app_cons in Hr. congruence.
Qed.

Lemma lower_app (a b : string) : Py.lower (a +:+ b) = Py.lower a +:+ Py.lower b.
Proof.
  induction a as [|c a IH]; [done|].
  rewrite app_cons. simpl. by rewrite app_cons, IH.
Qed.

Lemma lower_split (s x y : string) :
  Py.lower s = x +:+ y → ∃ s1 s2, s = s1 +:+ s2 ∧ Py.lower s1 = x ∧ Py.lower s2 = y.
Proof.
  revert s. induction x as [|c x IH]; intros s Hs.
  - by exists EmptyString, s.
  - rewrite app_cons in Hs. destruct s as [|d s]; simpl in Hs; [done|].
    injection Hs as Hc Hs. apply IH in Hs as (s1 & s2 & -> & <- & <-).
    exists (String d s1), s2. simpl. by rewrite Hc.
Qed.

(** The test of line 107 holds exactly for the texts with a part that
    lower-cases to the needle. *)
Lemma contains_lower_iff (needle text : string) :
  Py.contains needle (Py.lower text) = true ↔
  ∃ before word after,
    text = before +:+ word +:+ after ∧ Py.lower word = needle.
Proof.
  rewrite contains_iff. split.
  - intros (x & y & Hl). apply lower_split in Hl as (before & rest & -> & <- & Hl).
    apply lower_split in Hl as (word & after & -> & <- & <-).
    by exists before, word, after.
  - intros (before & word & after & -> & <-).
    exists (Py.lower before), (Py.lower after). by rewrite !lower_app.
Qed.

End PyFacts.

(** ** What the verdict depends on *)

Lemma requirements_present_iff graph :
  (∀ name entity_type, (name, entity_type) ∈ requirements → present graph entity_type) ↔
  present graph (OMC "CreativeWork") ∧ present graph (OMC "Participant") ∧
  present graph (OMC "Person") ∧ present graph (OMC "Location") ∧
  present graph (OMC "Asset").
Proof.
  unfold requirements. split.
  - intros H.
    repeat split; [eapply (H "CreativeWork") | eapply (H "Participant")
      | eapply (H "Person") | eapply (H "Location") | eapply (H "Asset")];
      repeat ((by apply list_elem_of_here) || apply list_elem_of_further).
  - intros (H1 & H2 & H3 & H4 & H5) name entity_type Hin.
    repeat (apply elem_of_cons in Hin as [[= -> ->]|Hin]; [done|]).
    by apply not_elem_of_nil in Hin.
Qed.

(** The verdict only looks at the triples whose predicate is [type],
    [hasLocation] or [hasParticipantStructuralCharacteristic]. *)
Lemma verdict_depends (graph1 graph2 : Graph) :
  (∀ t, pred t = RDF_type ∨ pred t = hasLocation ∨
        pred t = hasParticipantStructuralCharacteristic →
        t ∈ graph1 ↔ t ∈ graph2) →
  verdict graph1 = verdict graph2.
Proof.
  assert (Hdir : ∀ g1 g2 : Graph,
    (∀ t, pred t = RDF_type ∨ pred t = hasLocation ∨
          pred t = hasParticipantStructuralCharacteristic →
          t ∈ g1 ↔ t ∈ g2) →
    verdict g1 = true → verdict g2 = true).
  { intros g1 g2 Hsame. rewrite !verdict_true_iff. unfold present, chain.
    intros (Hp & Hl & Hc). split; [|split].
    - intros name entity_type Hin. destruct (Hp name entity_type Hin) as [s Hs].
      exists s. apply (Hsame (s, RDF_type, entity_type)); [by left|done].
    - intros s o Hin. apply (Hl s o).
      apply (Hsame (s, hasLocation, o)); [right; by left|done].
    - intros p h l (H1 & H2 & H3). apply (Hc p h l). split; [|split].
      + apply (Hsame (p, RDF_type, OMC "Participant")); [by left|done].
      + apply (Hsame (p, hasParticipantStructuralCharacteristic, h));
          [right; by right|done].
      + apply (Hsame (h, hasLocation, l)); [right; by left|done]. }
  intros Hsame. apply eq_true_iff_eq. split; apply Hdir; [done|].
  intros t Ht. symmetry. by apply Hsame.
Qed.

Lemma verdict_union_irrelevant (graph extra : Graph) :
  (∀ t, t ∈ extra → pred t ≠ RDF_type ∧ pred t ≠ hasLocation ∧
                    pred t ≠ hasParticipantStructuralCharacteristic) →
  verdict (extra ∪ graph) = verdict graph.
Proof.
  intros Hextra. apply verdict_depends. intros t Hp. rewrite elem_of_union.
  split; [|by right]. intros [Hin|Hin]; [|done].
  apply Hextra in Hin as (? & ? & ?). by destruct Hp as [?|[?|?]].
Qed.

(** ** Sample graphs *)

Module Sample.

(** A participant whose person has a location, all five types present, one
    misspelled label and one self-referring identifier. *)
Definition complete : Graph :=
  {[ (ME "work", RDF_type, OMC "CreativeWork");
     (ME "part", RDF_type, OMC "Participant");
     (ME "pers", RDF_type, OMC "Person");
     (ME "loc", RDF_type, OMC "Location");
     (ME "asset", RDF_type, OMC "Asset");
     (ME "part", hasParticipantStructuralCharacteristic, ME "pers");
     (ME "pers", hasLocation, ME "loc");
     (ME "loc", RDFS_label, Literal "St. Paul, Minessotta" None None);
     (ME "asset", hasIdentifier, ME "asset") ]}.

(** The location is given as a string. *)
Definition quoted_location : Graph :=
  {[ (ME "work", RDF_type, OMC "CreativeWork");
     (ME "part", RDF_type, OMC "Participant");
     (ME "pers", RDF_type, OMC "Person");
     (ME "loc", RDF_type, OMC "Location");
     (ME "asset", RDF_type, OMC "Asset");
     (ME "part", hasParticipantStructuralCharacteristic, ME "pers");
     (ME "pers", hasLocation, Literal "https://me-nexus.com/id/loc" None None) ]}.

(** All five types, no path from the participant to a location. *)
Definition unconnected : Graph :=
  {[ (ME "work", RDF_type, OMC "CreativeWork");
     (ME "part", RDF_type, OMC "Participant");
     (ME "pers", RDF_type, OMC "Person");
     (ME "loc", RDF_type, OMC "Location");
     (ME "asset", RDF_type, OMC "Asset") ]}.

(** A participant linked to untyped nodes. *)
Definition untyped_path : Graph :=
  {[ (ME "part", RDF_type, OMC "Participant");
     (ME "part", hasParticipantStructuralCharacteristic, ME "mid");
     (ME "mid", hasLocation, ME "end") ]}.

(** An identifier given as the text of the subject's own URI. *)
Definition textual_identifier : Graph :=
  {[ (ME "asset", hasIdentifier, Literal "https://me-nexus.com/id/asset" None None) ]}.

(** A loader that knows two files. *)
Definition parse (ttl_file : string) : string + Graph :=
  if decide (ttl_file = "complete.ttl") then inr complete
  else if decide (ttl_file = "quoted.ttl") then inr quoted_location
  else inl "No such file or directory".

End Sample.

Example run_complete :
  main Sample.parse ["validate_milestone1.py"; "complete.ttl"] [] =
  (0, [Rule; Title; Rule; Loaded 9;
       CheckingEntityTypes; EntityFound "CreativeWork" 1; EntityFound "Participant" 1;
       EntityFound "Person" 1; EntityFound "Location" 1; EntityFound "Asset" 1;
       CheckingLocationReferences; AllLocationReferencesAreURIs;
       CheckingConnection; ConnectionOk "part";
       CheckingDataQuality; QualityIssuesFound;
       QualityIssue (Spelling "St. Paul, Minessotta");
       QualityIssue (CircularReferences 1); QualityIssue RecommendBlankNodes;
       Rule; ValidationPassed; AllPresentAndConnected; NoteQualityIssues 3; Rule]).
Proof. vm_compute. reflexivity. Qed.

Example run_quoted :
  main Sample.parse ["validate_milestone1.py"; "quoted.ttl"] [] =
  (1, [Rule; Title; Rule; Loaded 7;
       CheckingEntityTypes; EntityFound "CreativeWork" 1; EntityFound "Participant" 1;
       EntityFound "Person" 1; EntityFound "Location" 1; EntityFound "Asset" 1;
       CheckingLocationReferences; CriticalErrorsFound;
       LocationError "pers" "https://me-nexus.com/id/loc"; FixRemoveQuotes;
       CheckingConnection; ConnectionUsesLiteral; NoConnectionFound; ExpectedConnection;
       CheckingDataQuality; NoQualityIssues;
       Rule; ValidationFailed; CriticalIssuesMustBeFixed; Rule]).
Proof. vm_compute. reflexivity. Qed.

Example run_unreadable :
  main Sample.parse ["validate_milestone1.py"; "missing.ttl"] [] =
  (1, [Rule; Title; Rule; FailedToParse "No such file or directory"]).
Proof. vm_compute. reflexivity. Qed.

Example run_no_argument :
  main Sample.parse ["validate_milestone1.py"] [] = (1, [Usage]).
Proof. vm_compute. reflexivity. Qed.

(** ** What a run returns and prints *)

(** Validation of [graph] returns false: the checks on it do, and so does
    [validate_milestone1] on any file that loads as [graph]. *)
Definition validation_fails (graph : Graph) : Prop :=
  (∀ out, (run_checks graph out).1 = false) ∧
  (∀ (parse : string → string + Graph) ttl_file out,
     parse ttl_file = inr graph →
     (validate_milestone1 parse ttl_file out).1 = false).

(** Validation of [graph] returns true. *)
Definition validation_passes (graph : Graph) : Prop :=
  (∀ out, (run_checks graph out).1 = true) ∧
  (∀ (parse : string → string + Graph) ttl_file out,
     parse ttl_file = inr graph →
     (validate_milestone1 parse ttl_file out).1 = true).

(** [printed] is a stretch of what a run of the checks on [graph] prints. *)
Definition printed_in_run (graph : Graph) (printed : list line) : Prop :=
  ∃ before after, ∀ out, (run_checks graph out).2 = out ++ before ++ printed ++ after.

Lemma validation_fails_iff graph : validation_fails graph ↔ verdict graph = false.
Proof.
  unfold validation_fails. split.
  - intros [H _]. specialize (H []). by rewrite run_checks_run in H.
  - intros Hv. split.
    + intros out. by rewrite run_checks_run.
    + intros parse ttl_file out Hp. by rewrite validate_milestone1_run, Hp.
Qed.

Lemma validation_passes_iff graph : validation_passes graph ↔ verdict graph = true.
Proof.
  unfold validation_passes. split.
  - intros [H _]. specialize (H []). by rewrite run_checks_run in H.
  - intros Hv. split.
    + intros out. by rewrite run_checks_run.
    + intros parse ttl_file out Hp. by rewrite validate_milestone1_run, Hp.
Qed.

Lemma entity_types_printed_in_run graph : printed_in_run graph (entity_types_lines graph).
Proof.
  exists [], (location_references_lines graph ++ connection_lines graph ++
              data_quality_lines graph ++
              summary_lines (verdict graph) (quality_issues graph)).
  intros out. by rewrite run_checks_run.
Qed.

Lemma location_references_printed_in_run graph :
  printed_in_run graph (location_references_lines graph).
Proof.
  exists (entity_types_lines graph),
         (connection_lines graph ++ data_quality_lines graph ++
          summary_lines (verdict graph) (quality_issues graph)).
  intros out. by rewrite run_checks_run.
Qed.

Lemma connection_printed_in_run graph : printed_in_run graph (connection_lines graph).
Proof.
  exists (entity_types_lines graph ++ location_references_lines graph),
         (data_quality_lines graph ++
          summary_lines (verdict graph) (quality_issues graph)).
  intros out. rewrite run_checks_run. unfold report. by rewrite <-!app_assoc.
Qed.

Lemma data_quality_printed_in_run graph : printed_in_run graph (data_quality_lines graph).
Proof.
  exists (entity_types_lines graph ++ location_references_lines graph ++
          connection_lines graph),
         (summary_lines (verdict graph) (quality_issues graph)).
  intros out. rewrite run_checks_run. unfold report. by rewrite <-!app_assoc.
Qed.

(** ** The verdict *)

(** C1.  For a file that loads, the verdict [validate_milestone1] returns is
    true exactly when each of the five required types has an instance, no
    [hasLocation] triple has a literal object and no location reached from
    a participant through a person is a literal.  Neither the quality
    issues nor the "no connection" warning occur in the condition. *)
Theorem verdict_iff_structural_checks
    (parse : string → string + Graph) (ttl_file : string) (graph : Graph)
    (out : list line) :
  parse ttl_file = inr graph →
  (validate_milestone1 parse ttl_file out).1 = true ↔
  (present graph (OMC "CreativeWork") ∧ present graph (OMC "Participant") ∧
   present graph (OMC "Person") ∧ present graph (OMC "Location") ∧
   present graph (OMC "Asset")) ∧
  size (literal_locations graph) = 0 ∧
  (∀ participant person location,
     chain graph participant person location → ¬ is_Literal location).
Proof.
  intros Hparse. rewrite validate_milestone1_run, Hparse. simpl.
  rewrite verdict_true_iff, requirements_present_iff.
  rewrite <-location_errors_nil_iff, <-length_location_errors, length_zero_iff_nil.
  done.
Qed.

Lemma verdict_iff_structural_checks_witness :
  (validate_milestone1 Sample.parse "complete.ttl" []).1 = true ↔
  (present Sample.complete (OMC "CreativeWork") ∧
   present Sample.complete (OMC "Participant") ∧
   present Sample.complete (OMC "Person") ∧
   present Sample.complete (OMC "Location") ∧
   present Sample.complete (OMC "Asset")) ∧
  size (literal_locations Sample.complete) = 0 ∧
  (∀ participant person location,
     chain Sample.complete participant person location → ¬ is_Literal location).
Proof.
  apply (verdict_iff_structural_checks Sample.parse "complete.ttl" Sample.complete []).
  reflexivity.
Defined.

(** The sample with a misspelled label, a self-referring identifier passes;
    the sample without any connection passes with the warning printed. *)
Example complete_passes_with_quality_issues :
  verdict Sample.complete = true ∧
  quality_issues Sample.complete =
    [Spelling "St. Paul, Minessotta"; CircularReferences 1; RecommendBlankNodes].
Proof. vm_compute. done. Qed.

Example unconnected_passes_with_warning :
  verdict Sample.unconnected = true ∧
  connection_lines Sample.unconnected =
    [CheckingConnection; NoConnectionFound; ExpectedConnection].
Proof. vm_compute. done. Qed.

(** ** Check 1: entity presence *)

(** C5.  For each of the five names the check prints one line, in the order
    of [requirements], whatever the outcome for the names before it: the
    count of the distinct subjects typed with the required type when that
    count is positive, and MISSING otherwise; the count is the length of a
    duplicate-free enumeration of exactly those subjects.  [passed] stays
    as it was when every name is satisfied and becomes false otherwise.
    These six lines are part of what a run of the checks prints, and a
    required type without an instance makes validation return false. *)
Theorem entity_presence_counts (graph : Graph) (passed : bool) (out : list line) :
  (∀ entity_type,
     NoDup (subjects graph RDF_type entity_type) ∧
     (∀ s, s ∈ subjects graph RDF_type entity_type ↔ (s, RDF_type, entity_type) ∈ graph) ∧
     entity_count graph entity_type = size (instances graph entity_type) ∧
     (0 < entity_count graph entity_type ↔ present graph entity_type)) ∧
  (check_entity_types graph passed out).2 =
    out ++ CheckingEntityTypes ::
      ((λ r, if bool_decide (0 < size (instances graph r.2))
             then EntityFound r.1 (size (instances graph r.2))
             else EntityMissing r.1) <$> requirements) ∧
  (requirements.*1 = ["CreativeWork"; "Participant"; "Person"; "Location"; "Asset"]) ∧
  ((check_entity_types graph passed out).1 = true ↔
     passed = true ∧
     ∀ name entity_type, (name, entity_type) ∈ requirements →
       0 < size (instances graph entity_type)) ∧
  printed_in_run graph
    (CheckingEntityTypes ::
      ((λ r, if bool_decide (0 < size (instances graph r.2))
             then EntityFound r.1 (size (instances graph r.2))
             else EntityMissing r.1) <$> requirements)) ∧
  (∀ name entity_type,
     (name, entity_type) ∈ requirements →
     (∀ s, (s, RDF_type, entity_type) ∉ graph) →
     (check_entity_types graph passed out).1 = false ∧
     validation_fails graph).
Proof.
  assert (Hlines : CheckingEntityTypes ::
      ((λ r, if bool_decide (0 < size (instances graph r.2))
             then EntityFound r.1 (size (instances graph r.2))
             else EntityMissing r.1) <$> requirements) = entity_types_lines graph).
  { unfold entity_types_lines, entity_line. simpl. by rewrite !entity_count_size. }
  rewrite Hlines. clear Hlines.
  assert (Hmissing : ∀ name entity_type,
            (name, entity_type) ∈ requirements →
            (∀ s, (s, RDF_type, entity_type) ∉ graph) →
            entity_types_ok graph = false).
  { intros name entity_type Hin Hnone.
    destruct (entity_types_ok graph) eqn:Hok; [|done].
    destruct (proj1 (entity_types_ok_iff graph) Hok name entity_type Hin) as [s Hs].
    by destruct (Hnone s). }
  rewrite check_entity_types_run. simpl fst. simpl snd.
  split; [|split; [|split; [|split; [|split; [apply entity_types_printed_in_run|]]]]];
    [| | | |intros name entity_type Hin Hnone;
            rewrite (Hmissing name entity_type Hin Hnone), andb_false_r;
            split; [done|]; apply validation_fails_iff; unfold verdict;
            by rewrite (Hmissing name entity_type Hin Hnone)].
  - intros entity_type. split; [apply NoDup_subjects|].
    split; [intros s; apply elem_of_subjects|].
    split; [apply entity_count_size|apply entity_count_pos].
  - done.
  - done.
  - rewrite andb_true_iff, entity_types_ok_iff.
    split; intros [Hp H]; (split; [done|]); intros name entity_type Hin;
      specialize (H name entity_type Hin).
    + by rewrite <-entity_count_size, entity_count_pos.
    + by rewrite <-entity_count_size, entity_count_pos in H.
Qed.

(** A graph with two participants and nothing else: every name gets its
    line, and the four missing ones are all reported. *)
Example entity_presence_exhaustive :
  check_entity_types
    {[ (ME "p1", RDF_type, OMC "Participant"); (ME "p2", RDF_type, OMC "Participant") ]}
    true [] =
  (false, [CheckingEntityTypes; EntityMissing "CreativeWork"; EntityFound "Participant" 2;
           EntityMissing "Person"; EntityMissing "Location"; EntityMissing "Asset"]).
Proof. vm_compute. reflexivity. Qed.

(** ** Check 2: location references *)

(** The triples the loop of lines 65-67 reports are the members of
    [literal_locations], each once. *)
Lemma literal_triples_perm (graph : Graph) :
  filter (λ t, is_Literal (obj t)) (triples graph None (Some hasLocation) None)
  ≡ₚ elements (literal_locations graph).
Proof.
  apply NoDup_Permutation.
  - apply NoDup_filter, NoDup_triples.
  - apply NoDup_elements.
  - intros t. unfold literal_locations.
    rewrite list_elem_of_filter, elem_of_triples, elem_of_elements, elem_of_filter.
    simpl. tauto.
Qed.

Lemma location_errors_perm (graph : Graph) :
  location_errors graph ≡ₚ location_error_of <$> elements (literal_locations graph).
Proof. rewrite location_errors_eq. apply fmap_Permutation, literal_triples_perm. Qed.

(** Deciding a closed proposition by evaluation. *)
Ltac by_compute :=
  lazymatch goal with
  | |- ?P => apply (bool_decide_unpack P); vm_compute; exact I
  end.

(** C4.  The errors of check 2 are, up to order, one per [hasLocation]
    triple with a literal object and no others.  When every such object is
    a resource there is no error, the check prints that all references are
    URIs and leaves [passed] alone; a literal object is reported, in lines
    that are part of what a run of the checks prints, and makes the check
    and the validation return false.  The errors depend on the
    [hasLocation] triples only: whether the object is declared anywhere in
    the graph plays no part. *)
Theorem location_reference_errors (graph : Graph) (passed : bool) (out : list line) :
  location_errors graph ≡ₚ location_error_of <$> elements (literal_locations graph) ∧
  length (location_errors graph) = size (literal_locations graph) ∧
  ((∀ s o, (s, hasLocation, o) ∈ graph → ¬ is_Literal o) →
     location_errors graph = [] ∧
     check_location_references graph passed out =
       (passed, out ++ [CheckingLocationReferences; AllLocationReferencesAreURIs])) ∧
  (∀ s o, (s, hasLocation, o) ∈ graph → is_Literal o →
     LocationError (short_name 20 s) (str o) ∈ location_errors graph ∧
     check_location_references graph passed out =
       (false, out ++ CheckingLocationReferences :: CriticalErrorsFound ::
                 location_errors graph ++ [FixRemoveQuotes]) ∧
     printed_in_run graph
       (CheckingLocationReferences :: CriticalErrorsFound ::
          location_errors graph ++ [FixRemoveQuotes]) ∧
     validation_fails graph) ∧
  (∀ graph' : Graph,
     (∀ t, pred t = hasLocation → t ∈ graph' ↔ t ∈ graph) →
     location_errors graph' ≡ₚ location_errors graph).
Proof.
  split; [apply location_errors_perm|].
  split; [apply length_location_errors|].
  split; [|split].
  - intros Hall. apply location_errors_nil_iff in Hall as Hnil.
    split; [done|]. rewrite check_location_references_run, Hnil. simpl.
    by rewrite andb_true_r.
  - intros s o Hin Hl.
    assert (He : LocationError (short_name 20 s) (str o) ∈ location_errors graph).
    { apply elem_of_location_errors. exists (s, hasLocation, o).
      split; [done|]. by apply elem_of_filter. }
    assert (Ht : truthy (location_errors graph) = true).
    { apply truthy_true. intros Hnil. rewrite Hnil in He.
      by apply not_elem_of_nil in He. }
    split; [done|]. split; [|split].
    + rewrite check_location_references_run, Ht. simpl. by rewrite andb_false_r.
    + pose proof (location_references_printed_in_run graph) as Hp.
      unfold location_references_lines in Hp. by rewrite Ht in Hp.
    + apply validation_fails_iff. unfold verdict. rewrite Ht. simpl.
      by rewrite andb_false_r.
  - intros graph' Hsame. rewrite !location_errors_perm.
    assert (Heq : literal_locations graph' = literal_locations graph).
    { apply set_eq. intros t. unfold literal_locations. rewrite !elem_of_filter.
      split; intros [[Hp Hl] Hin]; (split; [done|]); by apply (Hsame t Hp). }
    by rewrite Heq.
Qed.

(** The object of the [hasLocation] triple of this sample is declared
    nowhere, and no error is reported. *)
Example undeclared_location_accepted :
  (ME "mid", hasLocation, ME "end") ∈ Sample.untyped_path ∧
  ¬ (∃ p o, (ME "end", p, o) ∈ Sample.untyped_path) ∧
  location_errors Sample.untyped_path = [].
Proof.
  split; [by_compute|]. split; [|by vm_compute].
  intros (p & o & Hin). unfold Sample.untyped_path in Hin.
  rewrite !elem_of_union, !elem_of_singleton in Hin.
  destruct Hin as [[Hin|Hin]|Hin]; by inversion Hin.
Qed.

(** ** Check 3: the path from a participant to a location *)

(** The chains whose location is not a literal: the connections check 3
    records as found. *)
Definition successful_connections (graph : Graph) : list (term * term * term) :=
  filter (λ c, ¬ is_Literal c.2) (chains graph).

Definition is_ConnectionOk (l : line) : Prop :=
  match l with ConnectionOk _ => True | _ => False end.

#[global] Instance is_ConnectionOk_dec l : Decision (is_ConnectionOk l).
Proof. destruct l; simpl; apply _. Defined.

Section Connection.

Context (graph : Graph).

Lemma elem_of_successful_connections participant person location :
  (participant, person, location) ∈ successful_connections graph ↔
  chain graph participant person location ∧ ¬ is_Literal location.
Proof.
  unfold successful_connections. rewrite list_elem_of_filter, elem_of_chains.
  simpl. tauto.
Qed.

Lemma connection_found_successful :
  connection_found graph = true ↔ successful_connections graph ≠ [].
Proof.
  rewrite connection_found_iff. split.
  - intros (p & h & l & Hc & Hl) Hnil.
    assert (Hin : (p, h, l) ∈ successful_connections graph)
      by by apply elem_of_successful_connections.
    rewrite Hnil in Hin. by apply not_elem_of_nil in Hin.
  - intros Hne. destruct (successful_connections graph) as [|[[p h] l] cs] eqn:Hs; [done|].
    exists p, h, l. apply elem_of_successful_connections.
    rewrite Hs. apply list_elem_of_here.
Qed.

(** The "found" lines of check 3 are one per recorded connection. *)
Lemma connection_ok_lines :
  filter is_ConnectionOk (connection_lines graph) =
  (λ c, ConnectionOk (short_name 15 c.1.1)) <$> successful_connections graph.
Proof.
  unfold connection_lines, successful_connections.
  rewrite filter_cons, decide_False by (simpl; tauto).
  rewrite filter_app.
  assert (Hw : filter is_ConnectionOk
                 (if connection_found graph then []
                  else [NoConnectionFound; ExpectedConnection]) = []).
  { by destruct (connection_found graph). }
  rewrite Hw, app_nil_r. clear Hw.
  induction (chains graph) as [|c cs IH]; [done|].
  rewrite fmap_cons, !filter_cons, IH.
  assert (Hok : is_ConnectionOk (chain_line c) ↔ ¬ is_Literal c.2).
  { unfold chain_line. destruct (is_Literal c.2); simpl; tauto. }
  destruct (decide (¬ is_Literal c.2)) as [Hl|Hl].
  - rewrite decide_True by by apply Hok.
    rewrite fmap_cons. f_equal.
    unfold chain_line. by destruct (is_Literal c.2); [destruct Hl|].
  - by rewrite decide_False by by rewrite Hok.
Qed.

Lemma elem_of_connection_lines_ok name :
  ConnectionOk name ∈ connection_lines graph ↔
  ∃ c, c ∈ successful_connections graph ∧ name = short_name 15 c.1.1.
Proof.
  assert (Hf : ConnectionOk name ∈ connection_lines graph ↔
               ConnectionOk name ∈ filter is_ConnectionOk (connection_lines graph)).
  { rewrite list_elem_of_filter. simpl. tauto. }
  rewrite Hf, connection_ok_lines, list_elem_of_fmap.
  split; intros (c & H1 & H2); exists c; split; congruence.
Qed.

Lemma elem_of_connection_lines_literal :
  ConnectionUsesLiteral ∈ connection_lines graph ↔
  ∃ participant person location,
    chain graph participant person location ∧ is_Literal location.
Proof.
  unfold connection_lines. rewrite elem_of_cons, elem_of_app, list_elem_of_fmap.
  split.
  - intros [?|[([[p h] l] & Hc & Hin)|Hw]]; [done| |].
    + apply elem_of_chains in Hin. exists p, h, l. split; [done|].
      unfold chain_line in Hc. simpl in Hc. by destruct (is_Literal l).
    + destruct (connection_found graph); [by apply not_elem_of_nil in Hw|].
      apply elem_of_cons in Hw as [?|Hw]; [done|].
      apply list_elem_of_singleton in Hw. done.
  - intros (p & h & l & Hc & Hl). right. left. exists (p, h, l).
    split; [|by apply elem_of_chains].
    unfold chain_line. simpl. by destruct (is_Literal l).
Qed.

Lemma elem_of_connection_lines_warning :
  NoConnectionFound ∈ connection_lines graph ↔ connection_found graph = false.
Proof.
  unfold connection_lines. rewrite elem_of_cons, elem_of_app, list_elem_of_fmap.
  split.
  - intros [?|[(c & Hc & _)|Hw]]; [done| |].
    + unfold chain_line in Hc. by destruct (is_Literal c.2).
    + destruct (connection_found graph); [by apply not_elem_of_nil in Hw|done].
  - intros ->. right. right. apply list_elem_of_here.
Qed.

End Connection.

Lemma warning_iff_none_found (graph : Graph) :
  NoConnectionFound ∈ connection_lines graph ↔ successful_connections graph = [].
Proof.
  rewrite elem_of_connection_lines_warning.
  destruct (connection_found graph) eqn:Hf.
  - apply connection_found_successful in Hf. split; [done|]. by intros ?.
  - split; [|done]. intros _.
    destruct (successful_connections graph) eqn:Hs; [done|].
    assert (connection_found graph = true) as Ht
      by (apply connection_found_successful; by rewrite Hs).
    congruence.
Qed.

(** C2 (as the code has it).  Check 3 prints one "found" line for each
    triple (participant, person, location) where the participant is typed
    Participant, has the middle node as a
    [hasParticipantStructuralCharacteristic] and the middle node has the
    end node as a [hasLocation] that is not a literal: these triples,
    each taken once, are the connections it records, and it prints the
    warning exactly when there is none.  The types of the middle and end
    nodes are not looked at. *)
Theorem successful_connection_iff (graph : Graph) (passed : bool) (out : list line) :
  ∃ (found : list (term * term * term)) (printed : list line),
    (check_connection graph passed out).2 = out ++ printed ∧
    printed_in_run graph printed ∧
    NoDup found ∧
    (∀ participant person location,
       (participant, person, location) ∈ found ↔
       (participant, RDF_type, OMC "Participant") ∈ graph ∧
       (participant, hasParticipantStructuralCharacteristic, person) ∈ graph ∧
       (person, hasLocation, location) ∈ graph ∧
       ¬ is_Literal location) ∧
    filter is_ConnectionOk printed =
      (λ c, ConnectionOk (short_name 15 c.1.1)) <$> found ∧
    (NoConnectionFound ∈ printed ↔ found = []).
Proof.
  exists (successful_connections graph), (connection_lines graph).
  split; [by rewrite check_connection_run|].
  split; [apply connection_printed_in_run|].
  split; [apply NoDup_filter, NoDup_chains|].
  split; [|split; [apply connection_ok_lines|apply warning_iff_none_found]].
  intros p h l. rewrite elem_of_successful_connections. unfold chain. tauto.
Qed.

(** C2 as stated fails: in this sample the connection through [mid] to
    [end] is recorded as found although [mid] is not typed Person and
    [end] is not typed Location. *)
Lemma successful_connection_untyped :
  check_connection Sample.untyped_path true [] =
    (true, [CheckingConnection; ConnectionOk "part"]) ∧
  (ME "part", ME "mid", ME "end") ∈ successful_connections Sample.untyped_path ∧
  ((ME "mid", RDF_type, OMC "Person") ∉ Sample.untyped_path) ∧
  ((ME "end", RDF_type, OMC "Location") ∉ Sample.untyped_path).
Proof.
  split; [by vm_compute|]. split; [by_compute|]. split; by_compute.
Qed.

(** C3.  For a location reached from a participant through one of its
    structural characteristics, check 3 prints the malformed-connection
    line when it is a literal, and then the check and the validation
    return false; it prints a found line when it is a resource.  The
    warning is printed exactly when no found line is, that is, when no
    such path ends in a resource.  The warning has no effect on the
    result: without a literal location the check returns [passed] as it
    got it, and a graph with the five types and no literal [hasLocation]
    object passes validation whether or not the warning is printed.  All
    these lines are part of what a run of the checks prints. *)
Theorem connection_outcomes (graph : Graph) (passed : bool) (out : list line) :
  ∃ printed : list line,
    (check_connection graph passed out).2 = out ++ printed ∧
    printed_in_run graph printed ∧
    (∀ participant person location,
       chain graph participant person location → is_Literal location →
       ConnectionUsesLiteral ∈ printed ∧
       (check_connection graph passed out).1 = false ∧
       validation_fails graph) ∧
    (∀ participant person location,
       chain graph participant person location → ¬ is_Literal location →
       ConnectionOk (short_name 15 participant) ∈ printed) ∧
    (NoConnectionFound ∈ printed ↔ ∀ name, ConnectionOk name ∉ printed) ∧
    (NoConnectionFound ∈ printed ↔
       ¬ ∃ participant person location,
           chain graph participant person location ∧ ¬ is_Literal location) ∧
    ((∀ participant person location,
        chain graph participant person location → ¬ is_Literal location) →
     (check_connection graph passed out).1 = passed) ∧
    ((∀ name entity_type, (name, entity_type) ∈ requirements →
        ∃ s, (s, RDF_type, entity_type) ∈ graph) →
     (∀ s o, (s, hasLocation, o) ∈ graph → ¬ is_Literal o) →
     validation_passes graph).
Proof.
  exists (connection_lines graph).
  rewrite check_connection_run. simpl fst. simpl snd.
  pose proof (warning_iff_none_found graph) as Hwarn.
  split; [done|]. split; [apply connection_printed_in_run|].
  split; [|split; [|split; [|split; [|split]]]].
  - intros p h l Hc Hl.
    assert (Hko : connections_ok graph = false).
    { destruct (connections_ok graph) eqn:Hok; [|done].
      by destruct (proj1 (connections_ok_iff graph) Hok p h l). }
    split; [apply elem_of_connection_lines_literal; by exists p, h, l|].
    split; [by rewrite Hko, andb_false_r|].
    apply validation_fails_iff. unfold verdict. by rewrite Hko, andb_false_r.
  - intros p h l Hc Hl.
    apply elem_of_connection_lines_ok. exists (p, h, l).
    split; [by apply elem_of_successful_connections|done].
  - rewrite Hwarn. split.
    + intros Hnil name Hin. apply elem_of_connection_lines_ok in Hin as (c & Hc & _).
      rewrite Hnil in Hc. by apply not_elem_of_nil in Hc.
    + intros Hnone. destruct (successful_connections graph) as [|c cs] eqn:Hs; [done|].
      destruct (Hnone (short_name 15 c.1.1)).
      apply elem_of_connection_lines_ok. exists c. split; [|done].
      rewrite Hs. apply list_elem_of_here.
  - rewrite Hwarn. split.
    + intros Hnil (p & h & l & Hc & Hl).
      assert (Hin : (p, h, l) ∈ successful_connections graph)
        by by apply elem_of_successful_connections.
      rewrite Hnil in Hin. by apply not_elem_of_nil in Hin.
    + intros Hnone.
      destruct (successful_connections graph) as [|[[p h] l] cs] eqn:Hs; [done|].
      destruct Hnone. exists p, h, l. apply elem_of_successful_connections.
      rewrite Hs. apply list_elem_of_here.
  - intros Hall. apply connections_ok_iff in Hall. by rewrite Hall, andb_true_r.
  - intros Hpresent Hloc. apply validation_passes_iff, verdict_true_iff.
    split; [done|]. split; [done|].
    intros p h l (_ & _ & Hin). by apply (Hloc h).
Qed.

(** The three outcomes on the samples. *)
Example connection_found_sample :
  check_connection Sample.complete true [] =
  (true, [CheckingConnection; ConnectionOk "part"]).
Proof. vm_compute. reflexivity. Qed.

Example connection_literal_sample :
  check_connection Sample.quoted_location true [] =
  (false, [CheckingConnection; ConnectionUsesLiteral; NoConnectionFound; ExpectedConnection]).
Proof. vm_compute. reflexivity. Qed.

Example connection_absent_sample :
  check_connection Sample.unconnected true [] =
  (true, [CheckingConnection; NoConnectionFound; ExpectedConnection]).
Proof. vm_compute. reflexivity. Qed.

(** ** The program: exit paths *)

(** The three ways through the [__main__] block. *)
Lemma main_exit_paths
    (parse : string → string + Graph) (argv : list string) (out : list line) :
  (length argv < 2 → main parse argv out = (1, out ++ [Usage])) ∧
  (∀ ttl_file e,
     argv !! 1 = Some ttl_file → parse ttl_file = inl e →
     main parse argv out = (1, out ++ [Rule; Title; Rule; FailedToParse e])) ∧
  (∀ ttl_file graph,
     argv !! 1 = Some ttl_file → parse ttl_file = inr graph →
     main parse argv out =
       (if verdict graph then 0 else 1,
        out ++ [Rule; Title; Rule; Loaded (size graph)] ++
          (CheckingEntityTypes :: (entity_line graph <$> requirements)) ++
          location_references_lines graph ++
          connection_lines graph ++
          data_quality_lines graph ++
          summary_lines (verdict graph) (quality_issues graph)) ∧
     head (location_references_lines graph) = Some CheckingLocationReferences ∧
     head (connection_lines graph) = Some CheckingConnection ∧
     head (data_quality_lines graph) = Some CheckingDataQuality).
Proof.
  split; [|split].
  - intros Hlen. unfold main. by rewrite bool_decide_eq_true_2.
  - intros ttl_file e Harg Hparse. apply lookup_lt_Some in Harg as Hlen.
    unfold main. rewrite bool_decide_eq_false_2 by lia.
    rewrite Harg. simpl default.
    unfold mbind, IO_bind. by rewrite validate_milestone1_run, Hparse.
  - intros ttl_file graph Harg Hparse. apply lookup_lt_Some in Harg as Hlen.
    split; [|done].
    unfold main. rewrite bool_decide_eq_false_2 by lia.
    rewrite Harg. simpl default.
    unfold mbind, IO_bind. by rewrite validate_milestone1_run, Hparse.
Qed.

(** What each check prints does not depend on the lines before it nor on
    the value of [passed] it is started with. *)
Lemma checks_print_regardless (graph : Graph) :
  (∀ passed out, (check_entity_types graph passed out).2 = out ++ entity_types_lines graph) ∧
  (∀ passed out, (check_location_references graph passed out).2
                 = out ++ location_references_lines graph) ∧
  (∀ passed out, (check_connection graph passed out).2 = out ++ connection_lines graph) ∧
  (∀ out, (check_data_quality graph out).2 = out ++ data_quality_lines graph).
Proof.
  split; [|split; [|split]]; intros.
  - by rewrite check_entity_types_run.
  - by rewrite check_location_references_run.
  - by rewrite check_connection_run.
  - by rewrite check_data_quality_run.
Qed.

(** C6 (as the code has it).  The script exits with status 1 before any
    check in three cases: the import of rdflib fails, [argv] has fewer
    than two entries, or the file does not load; what it prints then is
    the one line of the case (after the banner, for a file that does not
    load).  In every other run it prints the banner, then all that check
    1, check 2, check 3 and check 4 print on the graph, whatever value of
    [passed] they are started with, then the summary, and it exits with
    status 0 or 1 as the checks return true or false. *)
Theorem script_exit_paths
    (parse : string → string + Graph) (rdflib_installed : bool)
    (argv : list string) (out : list line) :
  (rdflib_installed = false →
   script parse rdflib_installed argv out = (1, out ++ [RdflibNotInstalled])) ∧
  (rdflib_installed = true → length argv < 2 →
   script parse rdflib_installed argv out = (1, out ++ [Usage])) ∧
  (rdflib_installed = true →
   ∀ ttl_file e,
     argv !! 1 = Some ttl_file → parse ttl_file = inl e →
     script parse rdflib_installed argv out =
       (1, out ++ [Rule; Title; Rule; FailedToParse e])) ∧
  (rdflib_installed = true →
   ∀ ttl_file graph,
     argv !! 1 = Some ttl_file → parse ttl_file = inr graph →
     ∃ printed1 printed2 printed3 printed4 closing,
       (∀ passed o, (check_entity_types graph passed o).2 = o ++ printed1) ∧
       (∀ passed o, (check_location_references graph passed o).2 = o ++ printed2) ∧
       (∀ passed o, (check_connection graph passed o).2 = o ++ printed3) ∧
       (∀ o, (check_data_quality graph o).2 = o ++ printed4) ∧
       head printed1 = Some CheckingEntityTypes ∧
       head printed2 = Some CheckingLocationReferences ∧
       head printed3 = Some CheckingConnection ∧
       head printed4 = Some CheckingDataQuality ∧
       (∀ o, (summary (run_checks graph []).1 (check_data_quality graph []).1 o).2
             = o ++ closing) ∧
       script parse rdflib_installed argv out =
         (if (run_checks graph []).1 then 0 else 1,
          out ++ [Rule; Title; Rule; Loaded (size graph)] ++
            printed1 ++ printed2 ++ printed3 ++ printed4 ++ closing)).
Proof.
  destruct (main_exit_paths parse argv out) as (Husage & Hfail & Hload).
  split; [by intros ->|]. split; [by intros ->|]. split; [by intros ->|].
  intros -> ttl_file graph Harg Hparse.
  destruct (Hload ttl_file graph Harg Hparse) as (Hmain & H2 & H3 & H4).
  destruct (checks_print_regardless graph) as (Hp1 & Hp2 & Hp3 & Hp4).
  exists (entity_types_lines graph), (location_references_lines graph),
    (connection_lines graph), (data_quality_lines graph),
    (summary_lines (verdict graph) (quality_issues graph)).
  split; [done|]. split; [done|]. split; [done|]. split; [done|].
  split; [done|]. split; [done|]. split; [done|]. split; [done|].
  rewrite run_checks_run, check_data_quality_run. simpl fst.
  split; [intros o; by rewrite summary_run|].
  simpl script. by rewrite Hmain.
Qed.

(** C6 as stated fails: with rdflib missing the script exits with status
    1 before any check, although a file argument is given and the file
    would load. *)
Lemma import_failure_exits_early :
  Sample.parse "complete.ttl" = inr Sample.complete ∧
  ¬ (length ["validate_milestone1.py"; "complete.ttl"] < 2) ∧
  script Sample.parse false ["validate_milestone1.py"; "complete.ttl"] [] =
    (1, [RdflibNotInstalled]).
Proof. split; [done|]. split; [simpl; lia|done]. Qed.

(** ** Repeated runs *)

(** A second load of a file names its blank nodes anew: it yields the
    graph of the first load with the blank-node identifiers replaced. *)
Definition rename_term (fresh : string → string) (t : term) : term :=
  match t with
  | BNode id => BNode (fresh id)
  | _ => t
  end.

Definition rename_triple (fresh : string → string) (t : triple) : triple :=
  (rename_term fresh (subj t), rename_term fresh (pred t), rename_term fresh (obj t)).

Definition rename_blank_nodes (fresh : string → string) (graph : Graph) : Graph :=
  set_map (rename_triple fresh) graph.

(** The loader at a later call. *)
Definition reload (fresh : string → string) (parse : string → string + Graph)
    (ttl_file : string) : string + Graph :=
  match parse ttl_file with
  | inl e => inl e
  | inr graph => inr (rename_blank_nodes fresh graph)
  end.

Definition is_BNode (t : term) : bool :=
  match t with BNode _ => true | _ => false end.

(** No term of the graph is a blank node. *)
Definition ground (graph : Graph) : Prop :=
  ∀ t, t ∈ graph →
    is_BNode (subj t) = false ∧ is_BNode (pred t) = false ∧ is_BNode (obj t) = false.

Section Renaming.

Context (fresh : string → string).

Lemma rename_term_fixed t : is_BNode t = false → rename_term fresh t = t.
Proof. by destruct t. Qed.

Lemma rename_term_inv t x :
  rename_term fresh t = x → is_BNode x = false → t = x.
Proof. destruct t; simpl; by intros <-. Qed.

Lemma elem_of_rename_blank_nodes graph t' :
  t' ∈ rename_blank_nodes fresh graph ↔ ∃ t, t' = rename_triple fresh t ∧ t ∈ graph.
Proof. unfold rename_blank_nodes. by rewrite elem_of_map. Qed.

Lemma rename_ground graph : ground graph → rename_blank_nodes fresh graph = graph.
Proof.
  intros Hg. apply set_eq. intros t'. rewrite elem_of_rename_blank_nodes.
  assert (Hfix : ∀ t, t ∈ graph → rename_triple fresh t = t).
  { intros [[s p] o] Hin. destruct (Hg _ Hin) as (Hs & Hp & Ho).
    unfold rename_triple, subj, pred, obj in *. simpl in *.
    by rewrite !rename_term_fixed. }
  split.
  - intros (t & -> & Hin). by rewrite Hfix.
  - intros Hin. exists t'. by rewrite Hfix.
Qed.

Lemma verdict_rename graph : verdict (rename_blank_nodes fresh graph) = verdict graph.
Proof.
  assert (Hreq : ∀ name entity_type,
            (name, entity_type) ∈ requirements → is_BNode entity_type = false).
  { intros name entity_type Hin. unfold requirements in Hin.
    repeat (apply elem_of_cons in Hin as [[= -> ->]|Hin]; [done|]).
    by apply not_elem_of_nil in Hin. }
  assert (Hchain : ∀ g : Graph,
            (∀ s o, (s, hasLocation, o) ∈ g → ¬ is_Literal o) →
            ∀ p h l, chain g p h l → ¬ is_Literal l).
  { intros g Hall p h l (_ & _ & Hin). by apply (Hall h). }
  apply eq_true_iff_eq. rewrite !verdict_true_iff. unfold present.
  split; intros (Hp & Hl & _).
  - assert (Hl' : ∀ s o, (s, hasLocation, o) ∈ graph → ¬ is_Literal o).
    { intros s o Hin Hlit. apply (Hl (rename_term fresh s) o); [|done].
      apply elem_of_rename_blank_nodes. exists (s, hasLocation, o).
      split; [|done]. unfold rename_triple, subj, pred, obj. simpl.
      by destruct o. }
    split; [|split; [done|by apply Hchain]].
    intros name entity_type Hin. destruct (Hp name entity_type Hin) as [s' Hs].
    apply elem_of_rename_blank_nodes in Hs as ([[s p] o] & Heq & Hs).
    unfold rename_triple, subj, pred, obj in Heq. simpl in Heq.
    injection Heq as _ Hpr Ho. symmetry in Hpr, Ho.
    apply rename_term_inv in Hpr; [|done].
    apply rename_term_inv in Ho; [|by eapply Hreq]. subst. by exists s.
  - assert (Hl' : ∀ s o, (s, hasLocation, o) ∈ rename_blank_nodes fresh graph →
                         ¬ is_Literal o).
    { intros s' o' Hin Hlit.
      apply elem_of_rename_blank_nodes in Hin as ([[s p] o] & Heq & Hs).
      unfold rename_triple, subj, pred, obj in Heq. simpl in Heq.
      injection Heq as _ Hpr Ho. symmetry in Hpr.
      apply rename_term_inv in Hpr; [|done]. subst p o'.
      apply (Hl s o); [done|]. by destruct o. }
    split; [|split; [done|by apply Hchain]].
    intros name entity_type Hin. destruct (Hp name entity_type Hin) as [s Hs].
    exists (rename_term fresh s). apply elem_of_rename_blank_nodes.
    exists (s, RDF_type, entity_type). split; [|done].
    unfold rename_triple, subj, pred, obj. simpl.
    by rewrite (rename_term_fixed entity_type) by by eapply Hreq.
Qed.

End Renaming.

(** C9 (as the code has it).  On one loaded graph the checks return the
    same value and print the same lines whenever they are run.  A second
    validation of a file works on a second load, whose blank nodes have
    other identifiers: it returns the same value as the first, and it
    prints the same lines when the graph has no blank node. *)
Theorem validation_repeatable
    (parse : string → string + Graph) (fresh : string → string)
    (ttl_file : string) (graph : Graph) (out1 out2 : list line) :
  ((run_checks graph out1).1 = (run_checks graph out2).1 ∧
   ∃ printed, (run_checks graph out1).2 = out1 ++ printed ∧
              (run_checks graph out2).2 = out2 ++ printed) ∧
  (run_checks (rename_blank_nodes fresh graph) out2).1 = (run_checks graph out1).1 ∧
  (validate_milestone1 (reload fresh parse) ttl_file out2).1 =
    (validate_milestone1 parse ttl_file out1).1 ∧
  (ground graph →
   ∃ printed,
     (run_checks graph out1).2 = out1 ++ printed ∧
     (run_checks (rename_blank_nodes fresh graph) out2).2 = out2 ++ printed) ∧
  ((∀ g, parse ttl_file = inr g → ground g) →
   ∃ printed,
     (validate_milestone1 parse ttl_file out1).2 = out1 ++ printed ∧
     (validate_milestone1 (reload fresh parse) ttl_file out2).2 = out2 ++ printed).
Proof.
  split; [|split; [|split; [|split]]].
  - rewrite !run_checks_run. split; [done|]. by eexists.
  - rewrite !run_checks_run. apply verdict_rename.
  - rewrite !validate_milestone1_run. unfold reload.
    destruct (parse ttl_file) as [e|g]; [done|]. apply verdict_rename.
  - intros Hg. rewrite (rename_ground fresh graph Hg), !run_checks_run. by eexists.
  - intros Hg. rewrite !validate_milestone1_run. unfold reload.
    destruct (parse ttl_file) as [e|g]; [by eexists|].
    rewrite (rename_ground fresh g) by by apply Hg. by eexists.
Qed.

(** C9 as stated fails: the two loads of a file with one blank node that
    has a quoted location give the same value and different reports, the
    error line naming the blank node. *)
Lemma reports_differ_on_blank_nodes :
  rename_blank_nodes (λ _, "n2")
    {[ (BNode "n1", hasLocation, Literal "St. Paul" None None) ]}
  = {[ (BNode "n2", hasLocation, Literal "St. Paul" None None) ]} ∧
  (run_checks {[ (BNode "n1", hasLocation, Literal "St. Paul" None None) ]} []).1 =
  (run_checks {[ (BNode "n2", hasLocation, Literal "St. Paul" None None) ]} []).1 ∧
  LocationError "n1" "St. Paul"
    ∈ (run_checks {[ (BNode "n1", hasLocation, Literal "St. Paul" None None) ]} []).2 ∧
  (LocationError "n1" "St. Paul"
    ∉ (run_checks {[ (BNode "n2", hasLocation, Literal "St. Paul" None None) ]} []).2) ∧
  (run_checks {[ (BNode "n1", hasLocation, Literal "St. Paul" None None) ]} []).2 ≠
  (run_checks {[ (BNode "n2", hasLocation, Literal "St. Paul" None None) ]} []).2.
Proof.
  split; [by_compute|]. split; [by vm_compute|].
  split; [by_compute|]. split; by_compute.
Qed.

(** ** Check 4: data quality *)

Section Quality.

Context (graph : Graph).

Lemma circular_size : circular graph = size (circular_triples graph).
Proof.
  rewrite circular_eq. unfold circular_triples, size, set_size. simpl.
  apply Permutation_length, NoDup_Permutation.
  - apply NoDup_filter, NoDup_triples.
  - apply NoDup_elements.
  - intros t. rewrite list_elem_of_filter, elem_of_triples, elem_of_elements,
      elem_of_filter. simpl. tauto.
Qed.

Lemma self_loops_circular : self_loops graph ⊆ circular_triples graph.
Proof.
  intros t. unfold self_loops, circular_triples. rewrite !elem_of_filter.
  intros [[Hp Heq] Hin]. by rewrite Heq.
Qed.

Lemma length_spelling_issues :
  length (spelling_issues graph) = size (misspelled_labels graph).
Proof.
  rewrite spelling_issues_eq.
  transitivity (length (filter misspelled (triples graph None (Some RDFS_label) None))).
  - induction (triples graph None (Some RDFS_label) None) as [|t ts IH]; [done|].
    rewrite bind_cons, length_app, IH, filter_cons. unfold spelling_issue_of.
    by destruct (decide (misspelled t)).
  - unfold misspelled_labels, size, set_size. simpl.
    apply Permutation_length, NoDup_Permutation.
    + apply NoDup_filter, NoDup_triples.
    + apply NoDup_elements.
    + intros t. rewrite list_elem_of_filter, elem_of_triples, elem_of_elements,
        elem_of_filter. simpl. tauto.
Qed.

(** The spelling loop adds no entry about identifiers. *)
Lemma spelling_issues_only_spelling i :
  i ∈ spelling_issues graph → ∃ o, i = Spelling o.
Proof.
  rewrite spelling_issues_eq, list_elem_of_bind. intros (t & Hi & _).
  unfold spelling_issue_of in Hi. destruct (decide (misspelled t)).
  - apply list_elem_of_singleton in Hi. by eexists.
  - by apply not_elem_of_nil in Hi.
Qed.

End Quality.

Definition is_CircularReferences (i : issue) : Prop :=
  match i with CircularReferences _ => True | _ => False end.

#[global] Instance is_CircularReferences_dec i : Decision (is_CircularReferences i).
Proof. destruct i; simpl; apply _. Defined.

Lemma circular_issue_once (graph : Graph) :
  filter is_CircularReferences (quality_issues graph) =
  if bool_decide (0 < circular graph) then [CircularReferences (circular graph)] else [].
Proof.
  assert (Hs : filter is_CircularReferences (spelling_issues graph) = []).
  { pose proof (spelling_issues_only_spelling graph) as Hall.
    induction (spelling_issues graph) as [|i l IH]; [done|].
    rewrite filter_cons. destruct (Hall i) as [o ->]; [apply list_elem_of_here|].
    rewrite decide_False by (simpl; tauto).
    apply IH. intros j Hj. apply Hall. by apply list_elem_of_further. }
  unfold quality_issues. case_bool_decide.
  - by rewrite filter_app, Hs.
  - done.
Qed.

Lemma vocabulary_distinct :
  hasIdentifier ≠ RDF_type ∧ hasIdentifier ≠ hasLocation ∧
  hasIdentifier ≠ hasParticipantStructuralCharacteristic ∧
  RDFS_label ≠ RDF_type ∧ RDFS_label ≠ hasLocation ∧
  RDFS_label ≠ hasParticipantStructuralCharacteristic.
Proof. repeat split; by_compute. Qed.

(** Adding [hasIdentifier] or [label] triples leaves the verdict as it
    was. *)
Lemma verdict_quality_triples (graph extra : Graph) :
  (∀ t, t ∈ extra → pred t = hasIdentifier ∨ pred t = RDFS_label) →
  verdict (extra ∪ graph) = verdict graph.
Proof.
  intros Hextra. apply verdict_union_irrelevant. intros t Hin.
  destruct vocabulary_distinct as (? & ? & ? & ? & ? & ?).
  destruct (Hextra t Hin) as [-> | ->]; done.
Qed.

(** C7 (as the code has it).  [circular] is the number of [hasIdentifier]
    triples whose subject and object have the same text; every such triple
    whose subject is its object is among them.  When the count is positive
    [quality_issues] ends with one entry stating it, followed by the
    recommendation, and has no such entry otherwise.  Adding
    [hasIdentifier] triples to a graph does not change its verdict.  Two
    self-referring identifiers on distinct nodes, in a graph with no other
    counted triple, give the count 2. *)
Theorem circular_counts_equal_text (graph : Graph) :
  circular graph = size (circular_triples graph) ∧
  self_loops graph ⊆ circular_triples graph ∧
  quality_issues graph =
    spelling_issues graph ++
    (if bool_decide (0 < circular graph)
     then [CircularReferences (circular graph); RecommendBlankNodes] else []) ∧
  filter is_CircularReferences (quality_issues graph) =
    (if bool_decide (0 < circular graph)
     then [CircularReferences (circular graph)] else []) ∧
  (∀ extra : Graph,
     (∀ t, t ∈ extra → pred t = hasIdentifier) →
     verdict (extra ∪ graph) = verdict graph) ∧
  (∀ x1 x2,
     x1 ≠ x2 → circular graph = 0 →
     circular ({[ (x1, hasIdentifier, x1); (x2, hasIdentifier, x2) ]} ∪ graph) = 2).
Proof.
  split; [apply circular_size|]. split; [apply self_loops_circular|].
  split; [|split; [apply circular_issue_once|split]].
  - unfold quality_issues. case_bool_decide; [done|]. by rewrite app_nil_r.
  - intros extra Hextra. apply verdict_quality_triples. intros t Hin.
    left. by apply Hextra.
  - intros x1 x2 Hne Hzero. rewrite circular_size in Hzero |- *.
    apply size_empty_iff in Hzero.
    assert (Hall : circular_triples
                     ({[ (x1, hasIdentifier, x1); (x2, hasIdentifier, x2) ]} ∪ graph)
                   = {[ (x1, hasIdentifier, x1); (x2, hasIdentifier, x2) ]}).
    { apply set_eq. intros t. unfold circular_triples at 1.
      rewrite elem_of_filter, !elem_of_union, !elem_of_singleton. split.
      - intros [[Hp Hs] [Hin|Hin]]; [done|].
        assert (Ht : t ∈ circular_triples graph) by by apply elem_of_filter.
        apply Hzero in Ht. by apply not_elem_of_empty in Ht.
      - intros [-> | ->]; (split; [by split|]); left; [by left|by right]. }
    rewrite Hall, size_union.
    + by rewrite !size_singleton.
    + apply disjoint_singleton_l. rewrite elem_of_singleton. congruence.
Qed.

(** C7 as stated fails: the one [hasIdentifier] triple of this sample has
    a literal object, so its subject is not its object, and it is
    counted. *)
Lemma circular_counts_literal_text :
  self_loops Sample.textual_identifier = ∅ ∧
  circular Sample.textual_identifier = 1 ∧
  quality_issues Sample.textual_identifier =
    [CircularReferences 1; RecommendBlankNodes].
Proof. split; [by_compute|]. split; by vm_compute. Qed.

(** C10.  A [hasIdentifier] triple whose object is a literal with the
    text of the subject's URI is not a self-loop, yet it is among the
    counted triples, so the count is positive and the issue is
    reported. *)
Theorem textual_identifier_counted
    (graph : Graph) (uri : string) (datatype language : option string) :
  (URIRef uri, hasIdentifier, Literal uri datatype language) ∈ graph →
  Literal uri datatype language ≠ URIRef uri ∧
  ((URIRef uri, hasIdentifier, Literal uri datatype language) ∉ self_loops graph) ∧
  (URIRef uri, hasIdentifier, Literal uri datatype language) ∈ circular_triples graph ∧
  circular graph = size (circular_triples graph) ∧
  0 < circular graph ∧
  CircularReferences (circular graph) ∈ quality_issues graph.
Proof.
  intros Hin.
  assert (Hc : (URIRef uri, hasIdentifier, Literal uri datatype language)
               ∈ circular_triples graph) by by apply elem_of_filter.
  assert (Hpos : 0 < circular graph).
  { rewrite circular_size.
    destruct (size (circular_triples graph)) eqn:Hs; [|lia].
    apply size_empty_iff in Hs. by apply Hs in Hc. }
  split; [done|]. split.
  { unfold self_loops. rewrite elem_of_filter. by intros [[_ ?] _]. }
  split; [done|]. split; [apply circular_size|]. split; [done|].
  unfold quality_issues. rewrite bool_decide_eq_true_2 by done.
  apply elem_of_app. right. apply list_elem_of_here.
Qed.

Lemma textual_identifier_counted_witness :
  Literal "https://me-nexus.com/id/asset" None None ≠ URIRef "https://me-nexus.com/id/asset" ∧
  ((URIRef "https://me-nexus.com/id/asset", hasIdentifier,
    Literal "https://me-nexus.com/id/asset" None None)
   ∉ self_loops Sample.textual_identifier) ∧
  (URIRef "https://me-nexus.com/id/asset", hasIdentifier,
   Literal "https://me-nexus.com/id/asset" None None)
  ∈ circular_triples Sample.textual_identifier ∧
  circular Sample.textual_identifier = size (circular_triples Sample.textual_identifier) ∧
  0 < circular Sample.textual_identifier ∧
  CircularReferences (circular Sample.textual_identifier)
  ∈ quality_issues Sample.textual_identifier.
Proof.
  apply (textual_identifier_counted Sample.textual_identifier
           "https://me-nexus.com/id/asset" None None).
  apply elem_of_singleton. reflexivity.
Defined.

(** [c.upper()] on the letters a-z. *)
Definition upper_char (c : ascii) : ascii :=
  let n := nat_of_ascii c in
  if bool_decide (97 ≤ n ≤ 122) then ascii_of_nat (n - 32) else c.

(** [word] is [target] with each letter in either case.  This is written
    without [Py.lower]: each character of [word] is the character of
    [target] at its place or the upper-case form of it. *)
Fixpoint any_case (target word : string) : Prop :=
  match target, word with
  | EmptyString, EmptyString => True
  | String y target', String x word' =>
      (x = y ∨ x = upper_char y) ∧ any_case target' word'
  | _, _ => False
  end.

(** A text has the misspelling in some case. *)
Definition has_minessotta (text : string) : Prop :=
  ∃ before word after,
    text = before +:+ word +:+ after ∧ any_case "minessotta" word.

(** No character of the text is a letter A-Z. *)
Fixpoint no_upper (text : string) : Prop :=
  match text with
  | EmptyString => True
  | String c text' => ¬ (65 ≤ nat_of_ascii c ≤ 90) ∧ no_upper text'
  end.

Lemma lower_char_iff (x y : ascii) :
  ¬ (65 ≤ nat_of_ascii y ≤ 90) →
  Py.lower_char x = y ↔ x = y ∨ x = upper_char y.
Proof.
  intros Hy. unfold Py.lower_char, upper_char.
  pose proof (nat_ascii_bounded x) as Hbx. pose proof (nat_ascii_bounded y) as Hby.
  split.
  - case_bool_decide as Hx.
    + intros <-. right.
      rewrite nat_ascii_embedding by lia.
      rewrite bool_decide_eq_true_2 by lia.
      replace (nat_of_ascii x + 32 - 32) with (nat_of_ascii x) by lia.
      by rewrite ascii_nat_embedding.
    + by left.
  - intros [->| ->].
    + by rewrite bool_decide_eq_false_2.
    + case_bool_decide as Hl.
      * rewrite nat_ascii_embedding by lia.
        rewrite bool_decide_eq_true_2 by lia.
        replace (nat_of_ascii y - 32 + 32) with (nat_of_ascii y) by lia.
        by rewrite ascii_nat_embedding.
      * by rewrite bool_decide_eq_false_2.
Qed.

(** On a target without upper-case letters, lower-casing a word gives the
    target exactly when the word is the target in some case. *)
Lemma lower_any_case (target word : string) :
  no_upper target → Py.lower word = target ↔ any_case target word.
Proof.
  revert word. induction target as [|y target IH]; intros word Hno.
  - destruct word; cbn [Py.lower any_case]; [done|]. split; [done|by intros []].
  - destruct word as [|x word]; cbn [Py.lower any_case].
    { split; [done|by intros []]. }
    destruct Hno as [Hy Hno]. rewrite <-(IH word Hno), <-(lower_char_iff x y Hy).
    split; [by intros [= -> ->]|by intros [-> ->]].
Qed.

Lemma misspelled_iff (t : triple) :
  misspelled t ↔ is_Literal (obj t) ∧ has_minessotta (str (obj t)).
Proof.
  assert (Hno : no_upper "minessotta") by (simpl; repeat split; by_compute).
  unfold misspelled, has_minessotta.
  assert (Hc : Py.contains "minessotta" (Py.lower (str (obj t))) = true ↔
               ∃ before word after,
                 str (obj t) = before +:+ word +:+ after ∧ any_case "minessotta" word).
  { rewrite contains_lower_iff.
    split; intros (b & w & a & Heq & Hw); exists b, w, a; (split; [done|]);
      by apply (lower_any_case "minessotta" w Hno). }
  rewrite <-Hc.
  split; intros [Hl Hm]; (split; [done|]); by apply Is_true_true.
Qed.

(** C8.  The lexical check goes once through the triples of the graph
    whose predicate is [label].  Such a triple adds exactly one spelling
    issue, quoting the label, when its object is a literal whose text
    contains "minessotta" with each letter in either case, and nothing
    otherwise; so the number of spelling issues is the number of such
    triples.  These issues are the first entries of [quality_issues],
    which check 4 prints within the run.  Adding [label] triples to a
    graph does not change what validation returns. *)
Theorem spelling_issue_per_label (graph : Graph) :
  spelling_issues graph =
    triples graph None (Some RDFS_label) None ≫= spelling_issue_of ∧
  NoDup (triples graph None (Some RDFS_label) None) ∧
  (∀ t, t ∈ triples graph None (Some RDFS_label) None ↔
        t ∈ graph ∧ pred t = RDFS_label) ∧
  (∀ s p text datatype language,
     has_minessotta text →
     spelling_issue_of (s, p, Literal text datatype language) = [Spelling text]) ∧
  (∀ s p o,
     ¬ (is_Literal o ∧ has_minessotta (str o)) → spelling_issue_of (s, p, o) = []) ∧
  length (spelling_issues graph) = size (misspelled_labels graph) ∧
  (∃ rest, quality_issues graph = spelling_issues graph ++ rest) ∧
  (∀ extra : Graph,
     (∀ t, t ∈ extra → pred t = RDFS_label) →
     verdict (extra ∪ graph) = verdict graph) ∧
  (∀ s text datatype language,
     (s, RDFS_label, Literal text datatype language) ∈ graph →
     has_minessotta text →
     Spelling text ∈ spelling_issues graph ∧
     ∃ printed,
       printed_in_run graph printed ∧
       (∀ out, (check_data_quality graph out).2 = out ++ printed) ∧
       QualityIssue (Spelling text) ∈ printed) ∧
  ((∀ s text datatype language,
      (s, RDFS_label, Literal text datatype language) ∈ graph →
      ¬ has_minessotta text) →
   spelling_issues graph = []) ∧
  (∀ extra : Graph,
     (∀ t, t ∈ extra → pred t = RDFS_label) →
     ∀ out, (run_checks (extra ∪ graph) out).1 = (run_checks graph out).1).
Proof.
  split; [apply spelling_issues_eq|]. split; [apply NoDup_triples|].
  split; [|split; [|split; [|split; [apply length_spelling_issues|
    split; [|split; [|split; [|split]]]]]]].
  - intros t. rewrite elem_of_triples. simpl. tauto.
  - intros s p text datatype language Hm. unfold spelling_issue_of.
    rewrite decide_True; [done|]. by apply misspelled_iff.
  - intros s p o Hm. unfold spelling_issue_of.
    rewrite decide_False; [done|]. by rewrite misspelled_iff.
  - unfold quality_issues. case_bool_decide; [by eexists|].
    exists []. by rewrite app_nil_r.
  - intros extra Hextra. apply verdict_quality_triples. intros t Hin.
    right. by apply Hextra.
  - intros s text datatype language Hin Hm.
    assert (Hs : Spelling text ∈ spelling_issues graph).
    { rewrite spelling_issues_eq. apply list_elem_of_bind.
      exists (s, RDFS_label, Literal text datatype language). split.
      - unfold spelling_issue_of. rewrite decide_True by by apply misspelled_iff.
        apply list_elem_of_here.
      - by apply elem_of_triples. }
    split; [done|]. exists (data_quality_lines graph).
    split; [apply data_quality_printed_in_run|].
    split; [intros out; by rewrite check_data_quality_run|].
    assert (Hq : Spelling text ∈ quality_issues graph).
    { unfold quality_issues. case_bool_decide; [|done].
      apply elem_of_app. by left. }
    unfold data_quality_lines. destruct (quality_issues graph) as [|i l] eqn:Hqi.
    + by apply not_elem_of_nil in Hq.
    + simpl truthy. cbv iota. do 2 apply list_elem_of_further.
      apply list_elem_of_fmap. by exists (Spelling text).
  - intros Hnone. destruct (spelling_issues graph) as [|i l] eqn:Hs; [done|exfalso].
    assert (Hi : i ∈ spelling_issues graph) by (rewrite Hs; apply list_elem_of_here).
    rewrite spelling_issues_eq in Hi. apply list_elem_of_bind in Hi as (t' & Hi & Ht').
    apply elem_of_triples in Ht' as (Hin & _ & Hp & _). simpl in Hp.
    unfold spelling_issue_of in Hi.
    destruct (decide (misspelled t')) as [Hm|]; [|by apply not_elem_of_nil in Hi].
    apply misspelled_iff in Hm as [Hl Hm]. destruct t' as [[s p] o].
    unfold pred, obj in *. simpl in *. subst p. destruct o; try done.
    by apply (Hnone s lexical datatype language).
  - intros extra Hextra out. rewrite !run_checks_run. simpl.
    apply verdict_quality_triples. intros t Hin. right. by apply Hextra.
Qed.

(** Labels in upper case, in mixed case inside a longer text, with the
    correct spelling, and a resource in place of the literal. *)
Example spelling_samples :
  has_minessotta "MINESSOTTA" ∧
  has_minessotta "St. Paul, MinesSotta, USA" ∧
  ¬ any_case "minessotta" "minnesota" ∧
  spelling_issue_of (ME "loc", RDFS_label, Literal "MINESSOTTA" None None)
    = [Spelling "MINESSOTTA"] ∧
  spelling_issue_of (ME "loc", RDFS_label, Literal "St. Paul, MinesSotta, USA" None (Some "en"))
    = [Spelling "St. Paul, MinesSotta, USA"] ∧
  spelling_issue_of (ME "loc", RDFS_label, Literal "St. Paul, Minnesota" None None) = [] ∧
  spelling_issue_of (ME "loc", RDFS_label, ME "minessotta") = [].
Proof.
  split.
  { exists "", "MINESSOTTA", "". split; [done|]. simpl.
    repeat split; by right. }
  split.
  { exists "St. Paul, ", "MinesSotta", ", USA". split; [done|]. simpl.
    repeat split; (by left) || (by right). }
  split; [simpl; by intros (_ & _ & _ & [[=]|[=]] & _)|].
  repeat split; by vm_compute.
Qed.

(** ** Further properties of the checks *)

(** The result of the checks reads the graph only through its triples with
    predicate [type], [hasLocation] or
    [hasParticipantStructuralCharacteristic]: two graphs with the same such
    triples get the same result. *)
Theorem result_reads_three_predicates (graph1 graph2 : Graph) (out : list line) :
  (∀ t, pred t = RDF_type ∨ pred t = hasLocation ∨
        pred t = hasParticipantStructuralCharacteristic →
        t ∈ graph1 ↔ t ∈ graph2) →
  (run_checks graph1 out).1 = (run_checks graph2 out).1.
Proof. intros Hsame. rewrite !run_checks_run. simpl. by apply verdict_depends. Qed.

Lemma result_reads_three_predicates_witness :
  (run_checks Sample.unconnected []).1 =
  (run_checks ({[ (ME "loc", OMC "hasAddress", Literal "1 Main St" None None) ]}
                 ∪ Sample.unconnected) []).1.
Proof.
  apply (result_reads_three_predicates Sample.unconnected
           ({[ (ME "loc", OMC "hasAddress", Literal "1 Main St" None None) ]}
              ∪ Sample.unconnected) []).
  intros t Hp. rewrite elem_of_union, elem_of_singleton.
  split; [by right|]. intros [->|Hin]; [|exact Hin].
  exfalso. destruct Hp as [Hp|[Hp|Hp]]; vm_compute in Hp; discriminate Hp.
Defined.

(** Every literal location check 3 meets was already reported by check 2
    against the person, so check 3 can only fail after check 2 has: the
    result is true exactly when the five types are present and no
    [hasLocation] triple has a literal object. *)
Theorem malformed_connection_already_reported
    (graph : Graph) (passed : bool) (out : list line) :
  (∀ participant person location,
     chain graph participant person location → is_Literal location →
     LocationError (short_name 20 person) (str location) ∈ location_errors graph) ∧
  ((check_location_references graph passed out).1 = true →
   ∀ out', (check_connection graph true out').1 = true) ∧
  ((run_checks graph out).1 = true ↔
   (∀ name entity_type, (name, entity_type) ∈ requirements →
      ∃ s, (s, RDF_type, entity_type) ∈ graph) ∧
   (∀ s o, (s, hasLocation, o) ∈ graph → ¬ is_Literal o)).
Proof.
  assert (Hsub : (∀ s o, (s, hasLocation, o) ∈ graph → ¬ is_Literal o) →
                 ∀ p h l, chain graph p h l → ¬ is_Literal l).
  { intros Hall p h l (_ & _ & Hl). by apply (Hall h). }
  split; [|split].
  - intros p h l (_ & _ & Hin) Hl. apply elem_of_location_errors.
    exists (h, hasLocation, l). split; [done|]. by apply elem_of_filter.
  - rewrite check_location_references_run. simpl. intros Hok out'.
    apply andb_true_iff in Hok as [_ Hok]. apply negb_true_iff, truthy_false in Hok.
    rewrite check_connection_run. simpl.
    apply connections_ok_iff, Hsub. by apply location_errors_nil_iff.
  - rewrite run_checks_run. simpl. rewrite verdict_true_iff. unfold present.
    split; [by intros (H1 & H2 & _)|]. intros [H1 H2].
    split; [done|]. split; [done|]. by apply Hsub.
Qed.

(** No check turns a failure back into a pass: started with [passed]
    false, each of the three checks that assign [passed] returns false, and
    a check that returns true was started with [passed] true. *)
Theorem failure_is_kept (graph : Graph) (passed : bool) (out : list line) :
  (check_entity_types graph false out).1 = false ∧
  (check_location_references graph false out).1 = false ∧
  (check_connection graph false out).1 = false ∧
  ((check_entity_types graph passed out).1 = true → passed = true) ∧
  ((check_location_references graph passed out).1 = true → passed = true) ∧
  ((check_connection graph passed out).1 = true → passed = true).
Proof.
  rewrite !check_entity_types_run, !check_location_references_run,
    !check_connection_run. simpl.
  repeat split; try done; by intros [? _]%andb_true_iff.
Qed.

(** The exit status is 0 or 1, and it is 0 exactly when a file name was
    given, the file loaded and the checks on its graph returned true. *)
Theorem exit_status_zero_iff
    (parse : string → string + Graph) (argv : list string) (out : list line) :
  ((main parse argv out).1 = 0 ∨ (main parse argv out).1 = 1) ∧
  ((main parse argv out).1 = 0 ↔
   ∃ ttl_file graph,
     argv !! 1 = Some ttl_file ∧ parse ttl_file = inr graph ∧
     (run_checks graph []).1 = true).
Proof.
  unfold main. case_bool_decide as Hlen.
  - simpl. split; [by right|]. split; [done|].
    intros (f & g & Harg & _). apply lookup_lt_Some in Harg. lia.
  - destruct (argv !! 1) as [f|] eqn:Harg;
      [|apply lookup_ge_None in Harg; lia].
    simpl default. unfold mbind, IO_bind. rewrite validate_milestone1_run.
    destruct (parse f) as [e|g] eqn:Hparse; unfold mret, IO_ret; cbn [fst snd].
    + split; [by right|]. split; [done|].
      intros (f' & g' & [= <-] & Hp & _). congruence.
    + destruct (verdict g) eqn:Hv; cbn [fst snd].
      * split; [by left|]. split; [|done]. intros _. exists f, g.
        by rewrite run_checks_run.
      * split; [by right|]. split; [done|].
        intros (f' & g' & [= <-] & Hp & Hr). rewrite run_checks_run in Hr.
        simpl in Hr. congruence.
Qed.

(** *** The summary *)

Definition is_verdict_line (l : line) : Prop :=
  l = ValidationPassed ∨ l = ValidationFailed.

#[global] Instance is_verdict_line_dec l : Decision (is_verdict_line l).
Proof. unfold is_verdict_line. apply _. Defined.

Lemma filter_none {A} (P : A → Prop) `{!∀ x, Decision (P x)} (l : list A) :
  Forall (λ x, ¬ P x) l → filter P l = [].
Proof.
  induction 1 as [|x l Hx _ IH]; [done|].
  by rewrite filter_cons, decide_False.
Qed.

(** Only the summary prints a verdict line. *)
Lemma checks_print_no_verdict (graph : Graph) :
  Forall (λ l, ¬ is_verdict_line l)
    (entity_types_lines graph ++ location_references_lines graph ++
     connection_lines graph ++ data_quality_lines graph).
Proof.
  unfold is_verdict_line.
  rewrite !Forall_app. split; [|split; [|split]].
  - unfold entity_types_lines. apply Forall_cons. split; [by intros [?|?]|].
    apply Forall_fmap, Forall_forall. intros r _. simpl. unfold entity_line.
    destruct (bool_decide _); by intros [?|?].
  - unfold location_references_lines. apply Forall_cons. split; [by intros [?|?]|].
    destruct (truthy (location_errors graph)).
    + apply Forall_cons. split; [by intros [?|?]|].
      apply Forall_app. split.
      * rewrite location_errors_eq. apply Forall_fmap, Forall_forall.
        intros t _. simpl. by intros [?|?].
      * apply Forall_singleton. by intros [?|?].
    + apply Forall_singleton. by intros [?|?].
  - unfold connection_lines. apply Forall_cons. split; [by intros [?|?]|].
    apply Forall_app. split.
    + apply Forall_fmap, Forall_forall. intros c _. simpl. unfold chain_line.
      destruct (is_Literal c.2); by intros [?|?].
    + destruct (connection_found graph); [done|].
      repeat (apply Forall_cons; split; [by intros [?|?]|]). done.
  - unfold data_quality_lines. apply Forall_cons. split; [by intros [?|?]|].
    destruct (truthy (quality_issues graph)).
    + apply Forall_cons. split; [by intros [?|?]|].
      apply Forall_fmap, Forall_forall. intros i _. simpl. by intros [?|?].
    + apply Forall_singleton. by intros [?|?].
Qed.

(** A run of the checks prints exactly one verdict line, PASSED when it
    returns true and FAILED when it returns false, and ends with the
    closing rule. *)
Theorem one_verdict_line (graph : Graph) (out : list line) :
  ∃ printed,
    (run_checks graph out).2 = out ++ printed ∧
    filter is_verdict_line printed =
      [if (run_checks graph out).1 then ValidationPassed else ValidationFailed] ∧
    last printed = Some Rule.
Proof.
  exists (report graph). rewrite run_checks_run. simpl fst. simpl snd.
  split; [done|]. unfold report. rewrite !app_assoc. split.
  - rewrite filter_app, <-!app_assoc, (filter_none _ _ (checks_print_no_verdict graph)).
    unfold summary_lines.
    destruct (verdict graph); [destruct (truthy (quality_issues graph))|]; done.
  - unfold summary_lines. rewrite (app_comm_cons _ _ Rule), app_assoc.
    apply last_snoc.
Qed.

Lemma length_quality_issues (graph : Graph) :
  length (quality_issues graph) =
  size (misspelled_labels graph) +
  (if bool_decide (0 < size (circular_triples graph)) then 2 else 0).
Proof.
  unfold quality_issues. rewrite <-circular_size. case_bool_decide.
  - by rewrite length_app, length_spelling_issues.
  - rewrite length_spelling_issues. lia.
Qed.

(** [quality_issues] has one entry per flagged label and, when some
    identifier is counted, two more (the count and the recommendation).
    Its length is the number the summary of a passing run prints in its
    note; a failing run prints no note. *)
Theorem note_counts_entries (graph : Graph) (out : list line) :
  let n := size (misspelled_labels graph) +
           (if bool_decide (0 < size (circular_triples graph)) then 2 else 0) in
  length (quality_issues graph) = n ∧
  (summary true (quality_issues graph) out).2 =
    out ++ [Rule; ValidationPassed; AllPresentAndConnected] ++
      (if bool_decide (0 < n) then [NoteQualityIssues n] else []) ++ [Rule] ∧
  (summary false (quality_issues graph) out).2 =
    out ++ [Rule; ValidationFailed; CriticalIssuesMustBeFixed; Rule].
Proof.
  intros n. pose proof (length_quality_issues graph) as Hlen. fold n in Hlen.
  split; [done|]. rewrite !summary_run. simpl snd. split; [|done].
  unfold summary_lines. rewrite Hlen.
  destruct (quality_issues graph) as [|i l]; simpl in *.
  - by rewrite <-Hlen.
  - rewrite bool_decide_eq_true_2 by lia. done.
Qed.

(** Check 4 reports that there are no quality issues exactly when no
    label is flagged and no identifier is counted. *)
Theorem no_quality_issues_iff (graph : Graph) (out : list line) :
  check_data_quality graph out = ([], out ++ [CheckingDataQuality; NoQualityIssues]) ↔
  misspelled_labels graph = ∅ ∧ circular_triples graph = ∅.
Proof.
  rewrite check_data_quality_run.
  assert (Hnil : quality_issues graph = [] ↔
                 misspelled_labels graph = ∅ ∧ circular_triples graph = ∅).
  { rewrite <-length_zero_iff_nil.
    rewrite length_quality_issues.
    rewrite <-!(leibniz_equiv_iff (_ : Graph) ∅), <-!size_empty_iff.
    case_bool_decide; lia. }
  rewrite <-Hnil. split.
  - by intros [= -> _].
  - by intros ->.
Qed.

(** Check 3 prints nothing but the warning, and returns [passed] as it
    got it, exactly when the graph has no path from a subject typed
    Participant through [hasParticipantStructuralCharacteristic] and
    [hasLocation]; a [hasLocation] triple on the participant itself is no
    such path. *)
Theorem only_warning_iff_no_path (graph : Graph) (passed : bool) (out : list line) :
  (check_connection graph passed out =
     (passed, out ++ [CheckingConnection; NoConnectionFound; ExpectedConnection]) ↔
   ¬ ∃ participant person location, chain graph participant person location) ∧
  ((∀ s o, (s, hasParticipantStructuralCharacteristic, o) ∉ graph) →
   check_connection graph passed out =
     (passed, out ++ [CheckingConnection; NoConnectionFound; ExpectedConnection])).
Proof.
  assert (Hnil : chains graph = [] ↔ ¬ ∃ p h l, chain graph p h l).
  { split.
    - intros Hn (p & h & l & Hc). apply elem_of_chains in Hc.
      rewrite Hn in Hc. by apply not_elem_of_nil in Hc.
    - intros Hno. destruct (chains graph) as [|[[p h] l] cs] eqn:Hc; [done|].
      destruct Hno. exists p, h, l. apply elem_of_chains. rewrite Hc.
      apply list_elem_of_here. }
  assert (Hiff : check_connection graph passed out =
                   (passed, out ++ [CheckingConnection; NoConnectionFound; ExpectedConnection]) ↔
                 chains graph = []).
  { rewrite check_connection_run. unfold connections_ok, connection_found. split.
    - intros [= _ Hout]. apply app_inv_head in Hout. injection Hout as Hout.
      destruct (chains graph) as [|c cs]; [done|]. exfalso.
      rewrite fmap_cons in Hout. simpl in Hout. injection Hout as Hc _.
      unfold chain_line in Hc. by destruct (is_Literal c.2).
    - intros ->. simpl. by rewrite andb_true_r. }
  split; [by rewrite Hiff|].
  intros Hno. apply Hiff, Hnil. intros (p & h & l & _ & Hh & _). by apply Hno in Hh.
Qed.

(** *** Growing the graph *)

(** Adding triples to a graph never lowers a count: each required type
    keeps at least the instances it had, so check 1 keeps passing, and
    the location errors, the spelling issues and the counted identifiers
    do not get fewer. *)
Theorem more_triples_more_findings (graph graph' : Graph) (out : list line) :
  graph ⊆ graph' →
  (∀ entity_type,
     length (subjects graph RDF_type entity_type) ≤
     length (subjects graph' RDF_type entity_type)) ∧
  ((check_entity_types graph true out).1 = true →
   (check_entity_types graph' true out).1 = true) ∧
  length (location_errors graph) ≤ length (location_errors graph') ∧
  length (spelling_issues graph) ≤ length (spelling_issues graph') ∧
  circular graph ≤ circular graph'.
Proof.
  intros Hsub.
  assert (Hfilter : ∀ (P : triple → Prop) `{!∀ t, Decision (P t)},
            size (filter P graph) ≤ size (filter P graph')).
  { intros P ?. apply subseteq_size. intros t. rewrite !elem_of_filter.
    intros [? ?]. split; [done|]. by apply Hsub. }
  split; [|split; [|split; [|split]]].
  - intros entity_type. fold (entity_count graph entity_type).
    fold (entity_count graph' entity_type). rewrite !entity_count_size.
    apply subseteq_size. intros s. rewrite !elem_of_instances. apply Hsub.
  - rewrite !check_entity_types_run. simpl. rewrite !entity_types_ok_iff.
    intros Hall name entity_type Hin. destruct (Hall name entity_type Hin) as [s Hs].
    exists s. by apply Hsub.
  - rewrite !length_location_errors. apply Hfilter.
  - rewrite !length_spelling_issues. apply Hfilter.
  - rewrite !circular_size. apply Hfilter.
Qed.

Lemma more_triples_more_findings_witness :
  (∀ entity_type,
     length (subjects Sample.unconnected RDF_type entity_type) ≤
     length (subjects Sample.complete RDF_type entity_type)) ∧
  ((check_entity_types Sample.unconnected true []).1 = true →
   (check_entity_types Sample.complete true []).1 = true) ∧
  length (location_errors Sample.unconnected) ≤ length (location_errors Sample.complete) ∧
  length (spelling_issues Sample.unconnected) ≤ length (spelling_issues Sample.complete) ∧
  circular Sample.unconnected ≤ circular Sample.complete.
Proof.
  apply (more_triples_more_findings Sample.unconnected Sample.complete []).
  apply (bool_decide_unpack (Sample.unconnected ⊆ Sample.complete)).
  vm_compute. exact I.
Defined.

(** *** The short names printed for subjects *)

Section ShortName.

(** [sep] occurs nowhere in a text. *)
Definition free_of (sep : ascii) (text : string) : Prop :=
  ¬ ∃ a b, text = a +:+ String sep b.

Lemma free_of_cons sep c text :
  c ≠ sep → free_of sep text → free_of sep (String c text).
Proof.
  intros Hc Hfree ([|d a] & b & Heq).
  - rewrite app_empty in Heq. congruence.
  - rewrite app_cons in Heq. injection Heq as _ Heq. apply Hfree. by exists a, b.
Qed.

Lemma app_assoc_string (a b c : string) : (a +:+ b) +:+ c = a +:+ b +:+ c.
Proof.
  induction a as [|x a IH]; [done|]. by rewrite !app_cons, IH.
Qed.

Lemma app_empty_r (a : string) : a +:+ EmptyString = a.
Proof. induction a as [|x a IH]; [done|]. by rewrite app_cons, IH. Qed.

(** The last item of [s.split(sep)] is the part of [s] after its last
    [sep], or all of [s] when it has none. *)
Lemma last_split (sep : ascii) (s : string) :
  ∃ before,
    s = before +:+ Py.last_item (Py.split sep s) ∧
    free_of sep (Py.last_item (Py.split sep s)) ∧
    ((Py.split sep s = [Py.last_item (Py.split sep s)] ∧ before = EmptyString) ∨
     (∃ x y t b, Py.split sep s = x :: y :: t ∧ before = b +:+ String sep EmptyString)).
Proof.
  induction s as [|c s IH].
  - exists EmptyString. split; [done|]. split; [|by left].
    intros ([|? ?] & b & Heq); [by rewrite app_empty in Heq|by rewrite app_cons in Heq].
  - destruct IH as (before & Hs & Hfree & Hshape). simpl Py.split.
    destruct (Py.split sep s) as [|h [|y t]] eqn:Hsplit.
    + by destruct Hshape as [[? _]|(? & ? & ? & ? & ? & _)].
    + (* [s] has no separator *)
      assert (before = EmptyString) as ->
        by by destruct Hshape as [[_ ?]|(? & ? & ? & ? & ? & _)].
      unfold Py.last_item in *. simpl in Hs, Hfree. rewrite app_empty in Hs. subst h.
      case_bool_decide as Hc.
      * subst c. exists (String sep EmptyString). simpl.
        split; [done|]. split; [done|]. right.
        by exists EmptyString, s, [], EmptyString.
      * exists EmptyString. simpl. split; [done|].
        split; [by apply free_of_cons|by left].
    + (* [s] has a separator *)
      destruct Hshape as [[[=] _]|(? & ? & ? & b & _ & ->)].
      assert (Hlast : ∀ x, Py.last_item (x :: y :: t) = Py.last_item (h :: y :: t))
        by done.
      case_bool_decide as Hc.
      * subst c. exists (String sep (b +:+ String sep EmptyString)).
        assert (Hlast' : Py.last_item (EmptyString :: h :: y :: t)
                         = Py.last_item (h :: y :: t)) by done.
        rewrite Hlast'. split; [by rewrite app_cons, <-Hs|]. split; [done|]. right.
        exists EmptyString, h, (y :: t), (String sep b). by rewrite app_cons.
      * exists (String c (b +:+ String sep EmptyString)).
        rewrite (Hlast (String c h)). split; [by rewrite app_cons, <-Hs|].
        split; [done|]. right. exists (String c h), y, t, (String c b).
        by rewrite app_cons.
Qed.

Lemma slice_to_prefix (n : nat) (text : string) :
  ∃ rest,
    text = Py.slice_to n text +:+ rest ∧
    String.length (Py.slice_to n text) ≤ n ∧
    (rest ≠ EmptyString → String.length (Py.slice_to n text) = n).
Proof.
  revert text. induction n as [|n IH]; intros text.
  - exists text. destruct text; simpl; (split; [done|]); split; done || lia.
  - destruct text as [|c text]; simpl.
    + exists EmptyString. split; [done|]. split; [lia|done].
    + destruct (IH text) as (rest & Heq & Hle & Hfull). exists rest.
      rewrite app_cons, <-Heq. split; [done|]. split; [lia|].
      intros Hrest. by rewrite Hfull.
Qed.

(** For a subject whose text is ASCII, where a character of the model is
    a character of Python, the name printed for it (lines 67 and 92) is
    made of the first [n] characters of what follows the last slash of
    its text: it has at most [n] characters, none of them a slash, what
    precedes it in the text is empty or ends with a slash, and what
    follows it has no slash and is empty unless the name has all [n]
    characters. *)
Theorem short_name_shape (n : nat) (s : term) :
  Py.is_ascii (str s) = true →
  String.length (short_name n s) ≤ n ∧
  free_of "/" (short_name n s) ∧
  ∃ before rest,
    str s = before +:+ short_name n s +:+ rest ∧
    (before = EmptyString ∨ ∃ b, before = b +:+ "/") ∧
    free_of "/" rest ∧
    (rest ≠ EmptyString → String.length (short_name n s) = n).
Proof.
  intros _. unfold short_name.
  destruct (last_split "/" (str s)) as (before & Hs & Hfree & Hshape).
  destruct (slice_to_prefix n (Py.last_item (Py.split "/" (str s))))
    as (rest & Hl & Hle & Hfull).
  split; [done|]. split.
  - intros (a & b & Heq). apply Hfree. exists a, (b +:+ rest).
    rewrite Hl, Heq, app_assoc_string. by rewrite app_cons.
  - exists before, rest. split; [by rewrite <-Hl|]. split.
    + destruct Hshape as [[_ ->]|(x & y & t & b & _ & ->)]; [by left|right; by exists b].
    + split; [|done]. intros (a & b & Heq). apply Hfree.
      exists (Py.slice_to n (Py.last_item (Py.split "/" (str s))) +:+ a), b.
      rewrite Hl at 1. by rewrite Heq, app_assoc_string.
Qed.

Lemma short_name_shape_witness :
  String.length (short_name 20 (ME "participant-0123456789-abcdef")) ≤ 20 ∧
  free_of "/" (short_name 20 (ME "participant-0123456789-abcdef")) ∧
  ∃ before rest,
    str (ME "participant-0123456789-abcdef")
      = before +:+ short_name 20 (ME "participant-0123456789-abcdef") +:+ rest ∧
    (before = EmptyString ∨ ∃ b, before = b +:+ "/") ∧
    free_of "/" rest ∧
    (rest ≠ EmptyString →
     String.length (short_name 20 (ME "participant-0123456789-abcdef")) = 20).
Proof.
  apply (short_name_shape 20 (ME "participant-0123456789-abcdef")).
  vm_compute. reflexivity.
Defined.

End ShortName.

Example short_name_samples :
  short_name 20 (ME "participant-0123456789-abcdef") = "participant-01234567" ∧
  short_name 15 (ME "participant-0123456789-abcdef") = "participant-012" ∧
  short_name 20 (URIRef "https://me-nexus.com/id/") = "" ∧
  short_name 20 (BNode "b0") = "b0".
Proof. repeat split; by vm_compute. Qed.
